(** * imgd status collector (status.go): a shallow embedding

    The collector of status.go owns a record of counters and gauges.
    Producers send [statusCollectorMessage]s on a buffered channel; one
    goroutine receives them and the ticks of a five-second ticker, and
    is the only writer of the record.  [ToJSON] encodes the record.

    Integers are [Z] with Go's wrap-around written out, Go maps are
    [gmap string Z], the channel is the list of the messages it buffers
    (oldest first), and the calls made on the Prometheus counters are
    returned as a list, oldest first. *)

From Stdlib Require Import ZArith Lia List Permutation.
From stdpp Require Import gmap strings list fin_maps sorting pretty.

Local Open Scope string_scope.
Local Open Scope list_scope.
Local Open Scope Z_scope.

(** ** Machine integers *)

(** Go's [uint] on the 64-bit targets the service is built for. *)
Definition uint_bits : Z := 64.
Definition uint_modulus : Z := 2 ^ uint_bits.
Definition uint_max : Z := uint_modulus - 1.

(** The value a [uint] or [uint64] computation keeps. *)
Definition wrap_uint (z : Z) : Z := z mod uint_modulus.

(** The value an [int64] computation keeps. *)
Definition wrap_int64 (z : Z) : Z := (z + 2 ^ 63) mod 2 ^ 64 - 2 ^ 63.

(** [x++] on a [uint]. *)
Definition uint_incr (x : Z) : Z := wrap_uint (x + 1).

Definition is_uint (z : Z) : Prop := 0 <= z < uint_modulus.
Definition is_int64 (z : Z) : Prop := - 2 ^ 63 <= z < 2 ^ 63.

(** ** Messages *)

(** The constant block of status.go; [iota] counts the five names. *)
Definition StatusTypeCacheHit : Z := 0.
Definition StatusTypeCacheMiss : Z := 1.
Definition StatusTypeRequested : Z := 2.
Definition StatusTypeAPIRequested : Z := 3.
Definition StatusTypeErrored : Z := 4.

Record statusCollectorMessage := {
  MessageType : Z;       (* uint *)
  StatusType : string
}.

(** ** The collector *)

(** The anonymous struct of the field [info].  The three maps are the
    non-nil maps [MakeStatsCollector] makes; nothing assigns these
    fields afterwards, the maps are updated in place. *)
Record StatusInfo := {
  ImgdMem : Z;                     (* uint64 *)
  Uptime : Z;                      (* int64 *)
  Errored : gmap string Z;         (* map[string]uint *)
  Requested : gmap string Z;       (* map[string]uint *)
  APIRequested : gmap string Z;    (* map[string]uint *)
  CacheHits : Z;                   (* uint *)
  CacheMisses : Z;                 (* uint *)
  CacheSize : Z;                   (* uint *)
  CacheMem : Z                     (* uint64 *)
}.

Record StatusCollector := {
  info : StatusInfo;
  StartedAt : Z;                              (* int64 *)
  inputData : list statusCollectorMessage     (* chan, capacity 5 *)
}.

(** The capacity given to [make(chan statusCollectorMessage, 5)]. *)
Definition inputData_cap : nat := 5.

(** [MakeStatsCollector], given the value [time.Now().Unix()] returns.
    The goroutine it starts is [loop_iteration] below. *)
Definition MakeStatsCollector (now : Z) : StatusCollector :=
  {| info := {| ImgdMem := 0; Uptime := 0;
                Errored := ∅; Requested := ∅; APIRequested := ∅;
                CacheHits := 0; CacheMisses := 0;
                CacheSize := 0; CacheMem := 0 |};
     StartedAt := now;
     inputData := [] |}.

(** ** The metrics registry *)

(** Modelled from the spec: the four Prometheus counter vectors
    [cacheCounter], [errorCounter], [requestCounter] and [apiCounter]
    are package variables declared outside status.go; the spec gives
    them as one family per event type, incremented through
    [withLabels(family, label).increment()]. *)
Inductive CounterVec :=
  | cacheCounter
  | errorCounter
  | requestCounter
  | apiCounter.

(** One call [vec.WithLabelValues(label).Inc()]. *)
Record Increment := WithLabelValues_Inc {
  inc_vec : CounterVec;
  inc_label : string
}.

(** ** Map buckets *)

(** The index expression [m[k]] of Go: the zero value when [k] is
    absent. *)
Definition map_index (m : gmap string Z) (k : string) : Z :=
  default 0 (m !! k).

(** The statement
    [if _, exists := m[k]; exists { m[k]++ } else { m[k] = 1 }]. *)
Definition bump (m : gmap string Z) (k : string) : gmap string Z :=
  match m !! k with
  | Some v => <[k := uint_incr v]> m
  | None => <[k := 1]> m
  end.

(** ** Field updates of [s.info] *)

Definition set_CacheHits (v : Z) (i : StatusInfo) : StatusInfo :=
  {| ImgdMem := ImgdMem i; Uptime := Uptime i; Errored := Errored i;
     Requested := Requested i; APIRequested := APIRequested i;
     CacheHits := v; CacheMisses := CacheMisses i;
     CacheSize := CacheSize i; CacheMem := CacheMem i |}.

Definition set_CacheMisses (v : Z) (i : StatusInfo) : StatusInfo :=
  {| ImgdMem := ImgdMem i; Uptime := Uptime i; Errored := Errored i;
     Requested := Requested i; APIRequested := APIRequested i;
     CacheHits := CacheHits i; CacheMisses := v;
     CacheSize := CacheSize i; CacheMem := CacheMem i |}.

Definition set_Errored (m : gmap string Z) (i : StatusInfo) : StatusInfo :=
  {| ImgdMem := ImgdMem i; Uptime := Uptime i; Errored := m;
     Requested := Requested i; APIRequested := APIRequested i;
     CacheHits := CacheHits i; CacheMisses := CacheMisses i;
     CacheSize := CacheSize i; CacheMem := CacheMem i |}.

Definition set_Requested (m : gmap string Z) (i : StatusInfo) : StatusInfo :=
  {| ImgdMem := ImgdMem i; Uptime := Uptime i; Errored := Errored i;
     Requested := m; APIRequested := APIRequested i;
     CacheHits := CacheHits i; CacheMisses := CacheMisses i;
     CacheSize := CacheSize i; CacheMem := CacheMem i |}.

Definition set_APIRequested (m : gmap string Z) (i : StatusInfo) : StatusInfo :=
  {| ImgdMem := ImgdMem i; Uptime := Uptime i; Errored := Errored i;
     Requested := Requested i; APIRequested := m;
     CacheHits := CacheHits i; CacheMisses := CacheMisses i;
     CacheSize := CacheSize i; CacheMem := CacheMem i |}.

Definition with_info (i : StatusInfo) (s : StatusCollector) : StatusCollector :=
  {| info := i; StartedAt := StartedAt s; inputData := inputData s |}.

(** ** handleMessage *)

(** [handleMessage]: the collector after the call, and the calls made
    on the counter vectors during it.  The [switch] has no [default]:
    a [MessageType] outside the five constants falls through. *)
Definition handleMessage (msg : statusCollectorMessage) (s : StatusCollector)
  : StatusCollector * list Increment :=
  let t := MessageType msg in
  if t =? StatusTypeCacheHit then
    (with_info (set_CacheHits (uint_incr (CacheHits (info s))) (info s)) s,
     [WithLabelValues_Inc cacheCounter "hit"])
  else if t =? StatusTypeCacheMiss then
    (with_info (set_CacheMisses (uint_incr (CacheMisses (info s))) (info s)) s,
     [WithLabelValues_Inc cacheCounter "miss"])
  else if t =? StatusTypeErrored then
    let err := StatusType msg in
    (with_info (set_Errored (bump (Errored (info s)) err) (info s)) s,
     [WithLabelValues_Inc errorCounter err])
  else if t =? StatusTypeRequested then
    let req := StatusType msg in
    (with_info (set_Requested (bump (Requested (info s)) req) (info s)) s,
     [WithLabelValues_Inc requestCounter req])
  else if t =? StatusTypeAPIRequested then
    let req := StatusType msg in
    (with_info (set_APIRequested (bump (APIRequested (info s)) req) (info s)) s,
     [WithLabelValues_Inc apiCounter req])
  else
    (s, []).

(** ** Collect *)

(** What one run of [Collect] reads from its environment.
    Modelled from the spec: the package variable [cache], with its
    methods [size() -> uint] and [memory() -> uint64], is declared
    outside status.go; its two answers are taken as given, next to
    [memstats.Alloc] and [time.Now().Unix()]. *)
Record Readings := {
  memstats_Alloc : Z;     (* uint64 *)
  time_Now_Unix : Z;      (* int64 *)
  cache_size : Z;         (* uint *)
  cache_memory : Z        (* uint64 *)
}.

Definition readings_ok (r : Readings) : Prop :=
  is_uint (memstats_Alloc r) /\ is_int64 (time_Now_Unix r) /\
  is_uint (cache_size r) /\ is_uint (cache_memory r).

Definition Collect (r : Readings) (s : StatusCollector) : StatusCollector :=
  with_info
    {| ImgdMem := memstats_Alloc r;
       Uptime := wrap_int64 (time_Now_Unix r - StartedAt s);
       Errored := Errored (info s);
       Requested := Requested (info s);
       APIRequested := APIRequested (info s);
       CacheHits := CacheHits (info s);
       CacheMisses := CacheMisses (info s);
       CacheSize := cache_size r;
       CacheMem := cache_memory r |}
    s.

(** ** The channel and the ingestion calls *)

(** A send [s.inputData <- msg] on the buffered channel: it completes,
    appending the message, while the buffer holds fewer messages than
    its capacity; otherwise the sender stays blocked in the statement
    ([None]: the call has not returned, the collector is as it was). *)
Definition chan_send (msg : statusCollectorMessage) (s : StatusCollector)
  : option StatusCollector :=
  if decide (length (inputData s) < inputData_cap)%nat then
    Some {| info := info s; StartedAt := StartedAt s;
            inputData := inputData s ++ [msg] |}
  else None.

(** A receive [msg := <-s.inputData]: the oldest buffered message, when
    there is one. *)
Definition chan_recv (s : StatusCollector)
  : option (statusCollectorMessage * StatusCollector) :=
  match inputData s with
  | [] => None
  | msg :: rest =>
      Some (msg, {| info := info s; StartedAt := StartedAt s;
                    inputData := rest |})
  end.

(** The five exported methods that feed the channel; they share names
    with fields of [info], hence the module. *)
Module Ingest.

Definition Errored (errorType : string) (s : StatusCollector)
  : option StatusCollector :=
  chan_send {| MessageType := StatusTypeErrored;
               StatusType := errorType |} s.

Definition Requested (reqType : string) (s : StatusCollector)
  : option StatusCollector :=
  chan_send {| MessageType := StatusTypeRequested;
               StatusType := reqType |} s.

Definition APIRequested (reqType : string) (s : StatusCollector)
  : option StatusCollector :=
  chan_send {| MessageType := StatusTypeAPIRequested;
               StatusType := reqType |} s.

Definition HitCache (s : StatusCollector) : option StatusCollector :=
  chan_send {| MessageType := StatusTypeCacheHit; StatusType := EmptyString |} s.

Definition MissCache (s : StatusCollector) : option StatusCollector :=
  chan_send {| MessageType := StatusTypeCacheMiss; StatusType := EmptyString |} s.

End Ingest.

(** A call of one of the five methods. *)
Inductive IngestCall :=
  | CallErrored (errorType : string)
  | CallRequested (reqType : string)
  | CallAPIRequested (reqType : string)
  | CallHitCache
  | CallMissCache.

Definition ingest (c : IngestCall) : StatusCollector -> option StatusCollector :=
  match c with
  | CallErrored e => Ingest.Errored e
  | CallRequested r => Ingest.Requested r
  | CallAPIRequested r => Ingest.APIRequested r
  | CallHitCache => Ingest.HitCache
  | CallMissCache => Ingest.MissCache
  end.

(** The message a call sends. *)
Definition message_of (c : IngestCall) : statusCollectorMessage :=
  match c with
  | CallErrored e =>
      {| MessageType := StatusTypeErrored; StatusType := e |}
  | CallRequested r =>
      {| MessageType := StatusTypeRequested; StatusType := r |}
  | CallAPIRequested r =>
      {| MessageType := StatusTypeAPIRequested; StatusType := r |}
  | CallHitCache => {| MessageType := StatusTypeCacheHit; StatusType := EmptyString |}
  | CallMissCache => {| MessageType := StatusTypeCacheMiss; StatusType := EmptyString |}
  end.

(** ** The goroutine of MakeStatsCollector *)

(** The collector together with the calls made so far on the counter
    vectors. *)
Record World := {
  collector : StatusCollector;
  registry : list Increment
}.

Definition boot (now : Z) : World :=
  {| collector := MakeStatsCollector now; registry := [] |}.

(** Which case of the [select] is taken in one iteration of the loop. *)
Inductive Ready :=
  | TickerC (r : Readings)     (* case <-ticker.C *)
  | InputData.                 (* case msg := <-collector.inputData *)

(** One iteration of the [for { select { ... } }] loop.  [None]: the
    case is not ready (nothing is buffered). *)
Definition loop_iteration (c : Ready) (w : World) : option World :=
  match c with
  | TickerC r =>
      Some {| collector := Collect r (collector w);
              registry := registry w |}
  | InputData =>
      match chan_recv (collector w) with
      | None => None
      | Some (msg, s) =>
          let '(s', incs) := handleMessage msg s in
          Some {| collector := s'; registry := registry w ++ incs |}
      end
  end.

(** What happens next in the process: a producer's call returns, or the
    goroutine runs one iteration. *)
Inductive Event :=
  | Produce (c : IngestCall)
  | Loop (c : Ready).

Definition step (e : Event) (w : World) : option World :=
  match e with
  | Produce c =>
      match ingest c (collector w) with
      | Some s => Some {| collector := s; registry := registry w |}
      | None => None
      end
  | Loop c => loop_iteration c w
  end.

(** A schedule, run from left to right; [None] as soon as an event of
    the schedule cannot happen. *)
Fixpoint run (sched : list Event) (w : World) : option World :=
  match sched with
  | [] => Some w
  | e :: rest =>
      match step e w with
      | Some w' => run rest w'
      | None => None
      end
  end.

(** The states the process can be in. *)
Definition reachable (w : World) : Prop :=
  exists now sched, run sched (boot now) = Some w.

(** The calls of a schedule, in order. *)
Fixpoint calls_of (sched : list Event) : list IngestCall :=
  match sched with
  | [] => []
  | Produce c :: rest => c :: calls_of rest
  | Loop _ :: rest => calls_of rest
  end.

(** The aggregator handling a list of messages one after the other,
    with nothing in between. *)
Fixpoint handle_all (msgs : list statusCollectorMessage) (s : StatusCollector)
  : StatusCollector * list Increment :=
  match msgs with
  | [] => (s, [])
  | msg :: rest =>
      let '(s1, i1) := handleMessage msg s in
      let '(s2, i2) := handle_all rest s1 in
      (s2, i1 ++ i2)
  end.

(** ** ToJSON *)

(** The JSON values [json.Marshal] produces for [s.info]. *)
Local Unset Elimination Schemes.
Inductive json :=
  | JNumber (z : Z)
  | JObject (members : list (string * json)).
Local Set Elimination Schemes.

Definition key_le (a b : string * Z) : Prop := String.leb a.1 b.1 = true.

Global Instance key_le_dec (a b : string * Z) : Decision (key_le a b).
Proof. unfold key_le. apply _. Defined.

(** A [map[string]uint]: one member per key, keys in sorted order. *)
Definition encode_map (m : gmap string Z) : json :=
  JObject ((fun kv : string * Z => (kv.1, JNumber kv.2))
             <$> merge_sort key_le (map_to_list m)).

(** The struct: one member per exported field, named after the field
    (there are no tags), in declaration order. *)
Definition encode_info (i : StatusInfo) : json :=
  JObject [ ("ImgdMem", JNumber (ImgdMem i));
            ("Uptime", JNumber (Uptime i));
            ("Errored", encode_map (Errored i));
            ("Requested", encode_map (Requested i));
            ("APIRequested", encode_map (APIRequested i));
            ("CacheHits", JNumber (CacheHits i));
            ("CacheMisses", JNumber (CacheMisses i));
            ("CacheSize", JNumber (CacheSize i));
            ("CacheMem", JNumber (CacheMem i)) ].

Section Render.

(** The JSON string literal of a Go string (quotes and escapes): the
    encoder's own business, taken as given. *)
Variable quote : string -> string.

Fixpoint render (j : json) : string :=
  match j with
  | JNumber z => pretty z
  | JObject members =>
      let fix go (ms : list (string * json)) : string :=
        match ms with
        | [] => EmptyString
        | (k, v) :: rest =>
            quote k +:+ ":" +:+ render v +:+
            match rest with [] => EmptyString | _ => "," +:+ go rest end
        end in
      "{" +:+ go members +:+ "}"
  end.

(** The two results of [json.Marshal(s.info)]: the bytes and the
    error.  For this struct of integers and string-keyed maps of
    integers the encoder has no failing case. *)
Definition json_Marshal (i : StatusInfo) : string * option string :=
  (render (encode_info i), None).

End Render.

(** [ToJSON]: [results, _ := json.Marshal(s.info); return results]. *)
Definition ToJSON (quote : string -> string) (s : StatusCollector) : string :=
  let '(results, _) := json_Marshal quote (info s) in results.

(** The document [ToJSON] writes out. *)
Definition snapshot (s : StatusCollector) : json := encode_info (info s).

(** The member of an object with a given name. *)
Definition member (name : string) (j : json) : option json :=
  match j with
  | JObject ms => snd <$> List.find (fun kv => String.eqb kv.1 name) ms
  | JNumber _ => None
  end.

Definition member_names (j : json) : list string :=
  match j with
  | JObject ms => fst <$> ms
  | JNumber _ => []
  end.

(** ** Tallies *)

(** How many messages of a list have a given type, and how many have a
    given type and string. *)
Definition tally_type (t : Z) (msgs : list statusCollectorMessage) : nat :=
  length (filter (fun m => MessageType m = t) msgs).

Definition tally (t : Z) (k : string) (msgs : list statusCollectorMessage)
  : nat :=
  length (filter (fun m => MessageType m = t /\ StatusType m = k) msgs).

(** The five counters of a collector. *)
Definition counters (s : StatusCollector)
  : Z * Z * gmap string Z * gmap string Z * gmap string Z :=
  (CacheHits (info s), CacheMisses (info s), Errored (info s),
   Requested (info s), APIRequested (info s)).

(** The four gauges of a collector. *)
Definition gauges (s : StatusCollector) : Z * Z * Z * Z :=
  (ImgdMem (info s), Uptime (info s), CacheSize (info s), CacheMem (info s)).

(** Every counter holds a [uint]. *)
Definition counters_ok (s : StatusCollector) : Prop :=
  is_uint (CacheHits (info s)) /\ is_uint (CacheMisses (info s)) /\
  map_Forall (fun _ v => is_uint v) (Errored (info s)) /\
  map_Forall (fun _ v => is_uint v) (Requested (info s)) /\
  map_Forall (fun _ v => is_uint v) (APIRequested (info s)).

(** ** Buckets and message types *)

(** Go's reading of a bucket that may be absent. *)
Definition map_index_opt (o : option Z) : Z := default 0 o.

(** What a bucket holds after one more message for it. *)
Definition bucket_next (o : option Z) : option Z :=
  Some (uint_incr (default 0 o)).

(** The five defined message types. *)
Definition is_event_type (t : Z) : Prop :=
  t = StatusTypeCacheHit \/ t = StatusTypeCacheMiss \/
  t = StatusTypeRequested \/ t = StatusTypeAPIRequested \/
  t = StatusTypeErrored.

Global Instance is_event_type_dec t : Decision (is_event_type t).
Proof. unfold is_event_type. apply _. Defined.

(** Splits on which [case] of the [switch] a message takes. *)
Ltac switch_on msg :=
  unfold handleMessage;
  destruct (Z.eqb_spec (MessageType msg) StatusTypeCacheHit);
  [| destruct (Z.eqb_spec (MessageType msg) StatusTypeCacheMiss);
     [| destruct (Z.eqb_spec (MessageType msg) StatusTypeErrored);
        [| destruct (Z.eqb_spec (MessageType msg) StatusTypeRequested);
           [| destruct (Z.eqb_spec (MessageType msg) StatusTypeAPIRequested)]]]].

(** The five constants are pairwise distinct numbers. *)
Ltac by_types :=
  unfold StatusTypeCacheHit, StatusTypeCacheMiss, StatusTypeErrored,
    StatusTypeRequested, StatusTypeAPIRequested in *; lia.

(** ** Schedules and counts of calls *)

(** Each call followed by the iteration that receives its message. *)
Definition serve (calls : list IngestCall) : list Event :=
  calls ≫= fun c => [Produce c; Loop InputData].

Global Instance IngestCall_eq_dec : EqDecision IngestCall.
Proof. solve_decision. Defined.

(** How many calls of a list are the call [c]. *)
Definition count_calls (c : IngestCall) (calls : list IngestCall) : nat :=
  length (filter (fun c' => c' = c) calls).

(** Unfolds the tallies over a list of calls, one call at a time. *)
Ltac tally_calls :=
  let c := fresh "c" in
  let rest := fresh "rest" in
  let IH := fresh "IH" in
  unfold tally, tally_type, count_calls;
  intros calls; induction calls as [|c rest IH]; [reflexivity|];
  cbn [fmap list_fmap]; rewrite !filter_cons;
  destruct c; cbn [message_of MessageType StatusType];
  repeat case_decide; cbn [length]; rewrite ?IH; try reflexivity; exfalso;
  repeat match goal with H : _ /\ _ |- _ => destruct H end;
  try by_types; try congruence;
  repeat match goal with
         | H : ~ (_ /\ _) |- _ => apply H; split; try reflexivity; try congruence
         end.

(** ** Scenario A *)

(** Scenario A of the spec: three cache hits, one cache miss and two
    requests for "skin". *)
Definition scenario_A : list IngestCall :=
  [CallHitCache; CallHitCache; CallHitCache; CallMissCache;
   CallRequested "skin"; CallRequested "skin"].

(** The calls of scenario A with the miss first, a tick in the middle,
    and the two requests buffered together. *)
Definition scenario_A_schedule : list Event :=
  [ Produce CallMissCache; Loop InputData;
    Produce (CallRequested "skin"); Produce CallHitCache;
    Loop InputData;
    Loop (TickerC {| memstats_Alloc := 4096; time_Now_Unix := 105;
                     cache_size := 7; cache_memory := 900 |});
    Produce (CallRequested "skin"); Loop InputData; Loop InputData;
    Produce CallHitCache; Produce CallHitCache;
    Loop InputData; Loop InputData ].

Definition scenario_A_end : World :=
  {| collector :=
       {| info := {| ImgdMem := 4096; Uptime := 5;
                     Errored := ∅; Requested := {[ "skin" := 2 ]};
                     APIRequested := ∅;
                     CacheHits := 3; CacheMisses := 1;
                     CacheSize := 7; CacheMem := 900 |};
          StartedAt := 100;
          inputData := [] |};
     registry :=
       [ WithLabelValues_Inc cacheCounter "miss";
         WithLabelValues_Inc requestCounter "skin";
         WithLabelValues_Inc cacheCounter "hit";
         WithLabelValues_Inc requestCounter "skin";
         WithLabelValues_Inc cacheCounter "hit";
         WithLabelValues_Inc cacheCounter "hit" ] |}.

(** ** Increments and monotonicity *)

(** A counter did not go down, other than by wrapping from the largest
    [uint] to 0. *)
Definition no_decrease (old new : Z) : Prop :=
  old <= new \/ (old = uint_max /\ new = 0).

(** No key of a map was removed, and no bucket went down, other than by
    wrapping. *)
Definition buckets_no_decrease (before after : gmap string Z) : Prop :=
  forall k v, before !! k = Some v ->
              exists v', after !! k = Some v' /\ no_decrease v v'.

Definition counters_no_decrease (s s' : StatusCollector) : Prop :=
  no_decrease (CacheHits (info s)) (CacheHits (info s')) /\
  no_decrease (CacheMisses (info s)) (CacheMisses (info s')) /\
  buckets_no_decrease (Errored (info s)) (Errored (info s')) /\
  buckets_no_decrease (Requested (info s)) (Requested (info s')) /\
  buckets_no_decrease (APIRequested (info s)) (APIRequested (info s')).

(** A fresh collector with one cache hit buffered, and the iteration
    that handles it. *)
Definition one_hit_buffered : World :=
  {| collector :=
       {| info := info (MakeStatsCollector 0); StartedAt := 0;
          inputData := [message_of CallHitCache] |};
     registry := [] |}.

Definition one_hit_handled : World :=
  {| collector :=
       {| info := set_CacheHits 1 (info (MakeStatsCollector 0));
          StartedAt := 0; inputData := [] |};
     registry := [WithLabelValues_Inc cacheCounter "hit"] |}.

(** ** A full queue *)

(** Five calls fill the queue of a fresh collector; a sixth call does
    not return until the loop has received one message. *)
Definition five_calls : list IngestCall :=
  [CallHitCache; CallMissCache; CallRequested "skin";
   CallAPIRequested "profile"; CallErrored "timeout"].

Definition full_queue : StatusCollector :=
  {| info := info (MakeStatsCollector 0); StartedAt := 0;
     inputData := message_of <$> five_calls |}.

Definition full_queue_less_one : StatusCollector :=
  {| info := info (MakeStatsCollector 0); StartedAt := 0;
     inputData := message_of <$> tail five_calls |}.

(** ** The exported document *)

(** The object of a map: its members are the entries of the map, each
    once, ordered by key. *)
Definition is_object_of (j : json) (m : gmap string Z) : Prop :=
  exists l, j = JObject ((fun kv : string * Z => (kv.1, JNumber kv.2)) <$> l) /\
            l ≡ₚ map_to_list m /\ Sorted key_le l.

(** The field names of the exported document, in order. *)
Definition field_names : list string :=
  ["ImgdMem"; "Uptime"; "Errored"; "Requested"; "APIRequested";
   "CacheHits"; "CacheMisses"; "CacheSize"; "CacheMem"].

(** ** ToJSON next to the running goroutine *)

(** [ToJSON] runs on its caller's goroutine; it sends nothing on the
    channel and takes no lock.  The argument [s.info] of
    [json.Marshal] is a copy of the struct: the six integers by value,
    the three maps by reference, a Go map value being a pointer to the
    table that [handleMessage] updates in place.  The encoder walks the
    maps afterwards, through these references. *)
Record InfoCopy := {
  copy_ImgdMem : Z;
  copy_Uptime : Z;
  copy_CacheHits : Z;
  copy_CacheMisses : Z;
  copy_CacheSize : Z;
  copy_CacheMem : Z
}.

(** Evaluating the argument [s.info]. *)
Definition copy_info (s : StatusCollector) : InfoCopy :=
  {| copy_ImgdMem := ImgdMem (info s); copy_Uptime := Uptime (info s);
     copy_CacheHits := CacheHits (info s);
     copy_CacheMisses := CacheMisses (info s);
     copy_CacheSize := CacheSize (info s);
     copy_CacheMem := CacheMem (info s) |}.

(** What the encoder reads: the integers of the copy, and the maps as
    the collector holds them when the encoder walks them. *)
Definition info_seen (c : InfoCopy) (s : StatusCollector) : StatusInfo :=
  {| ImgdMem := copy_ImgdMem c; Uptime := copy_Uptime c;
     Errored := Errored (info s); Requested := Requested (info s);
     APIRequested := APIRequested (info s);
     CacheHits := copy_CacheHits c; CacheMisses := copy_CacheMisses c;
     CacheSize := copy_CacheSize c; CacheMem := copy_CacheMem c |}.

(** A call of [ToJSON] that evaluates [s.info] in the world [w], the
    process going through the events [between] before the encoder
    walks the maps: the document written out. *)
Definition snapshot_during (between : list Event) (w : World) : option json :=
  let c := copy_info (collector w) in
  match run between w with
  | Some w' => Some (encode_info (info_seen c (collector w')))
  | None => None
  end.

Definition ToJSON_during (quote : string -> string) (between : list Event)
    (w : World) : option string :=
  render quote <$> snapshot_during between w.

(** The worlds a schedule goes through, the first one included. *)
Fixpoint trace (sched : list Event) (w : World) : list World :=
  w :: match sched with
       | [] => []
       | e :: rest =>
           match step e w with
           | Some w' => trace rest w'
           | None => []
           end
       end.

(** One cache hit, then one request for "skin", each handled at once. *)
Definition hit_then_skin : list Event :=
  [Produce CallHitCache; Loop InputData;
   Produce (CallRequested "skin"); Loop InputData].

(** The document of a [ToJSON] overlapped by [hit_then_skin]. *)
Definition torn_document : json :=
  JObject [ ("ImgdMem", JNumber 0);
            ("Uptime", JNumber 0);
            ("Errored", JObject []);
            ("Requested", JObject [("skin", JNumber 1)]);
            ("APIRequested", JObject []);
            ("CacheHits", JNumber 0);
            ("CacheMisses", JNumber 0);
            ("CacheSize", JNumber 0);
            ("CacheMem", JNumber 0) ].

(** ** Calls, counters and the registry *)

(** The call on the registry that handling the message of an ingestion
    call makes. *)
Definition increment_of (c : IngestCall) : Increment :=
  match c with
  | CallErrored e => WithLabelValues_Inc errorCounter e
  | CallRequested r => WithLabelValues_Inc requestCounter r
  | CallAPIRequested r => WithLabelValues_Inc apiCounter r
  | CallHitCache => WithLabelValues_Inc cacheCounter "hit"
  | CallMissCache => WithLabelValues_Inc cacheCounter "miss"
  end.

(** The counter of the collector that an ingestion call is counted in,
    read as Go reads it ([m[k]] for a bucket). *)
Definition counter_of (c : IngestCall) (s : StatusCollector) : Z :=
  match c with
  | CallErrored e => map_index (Errored (info s)) e
  | CallRequested r => map_index (Requested (info s)) r
  | CallAPIRequested r => map_index (APIRequested (info s)) r
  | CallHitCache => CacheHits (info s)
  | CallMissCache => CacheMisses (info s)
  end.

Global Instance CounterVec_eq_dec : EqDecision CounterVec.
Proof. solve_decision. Defined.

Global Instance Increment_eq_dec : EqDecision Increment.
Proof. solve_decision. Defined.

(** How many calls of a registry log are the call [i]. *)
Definition count_incs (i : Increment) (log : list Increment) : nat :=
  length (filter (fun i' => i' = i) log).

(** The readings of the last tick of a schedule, if it has one. *)
Fixpoint last_tick (sched : list Event) : option Readings :=
  match sched with
  | [] => None
  | e :: rest =>
      match last_tick rest with
      | Some r => Some r
      | None => match e with Loop (TickerC r) => Some r | _ => None end
      end
  end.

(** How many iterations of a schedule take the [inputData] case. *)
Fixpoint receives (sched : list Event) : nat :=
  match sched with
  | [] => 0%nat
  | Loop InputData :: rest => S (receives rest)
  | _ :: rest => receives rest
  end.

(** The sum of the buckets of a map. *)
Definition sum_counts (m : gmap string Z) : Z :=
  map_fold (fun _ v acc => v + acc) 0 m.

(** Every field of [info] holds a value of its Go type. *)
Definition info_typed (s : StatusCollector) : Prop :=
  counters_ok s /\
  is_uint (ImgdMem (info s)) /\ is_int64 (Uptime (info s)) /\
  is_uint (CacheSize (info s)) /\ is_uint (CacheMem (info s)).

(** The readings of the ticks of a schedule. *)
Fixpoint ticks_of (sched : list Event) : list Readings :=
  match sched with
  | [] => []
  | Loop (TickerC r) :: rest => r :: ticks_of rest
  | _ :: rest => ticks_of rest
  end.

(** * Lemmas *)

(** ** Arithmetic *)

Lemma uint_modulus_eq : uint_modulus = 18446744073709551616.
Proof. reflexivity. Qed.

Lemma uint_modulus_pos : 0 < uint_modulus.
Proof. rewrite uint_modulus_eq. lia. Qed.

Lemma wrap_uint_is_uint z : is_uint (wrap_uint z).
Proof. apply Z.mod_pos_bound, uint_modulus_pos. Qed.

Lemma wrap_uint_small z : is_uint z -> wrap_uint z = z.
Proof. intros H. apply Z.mod_small, H. Qed.

Lemma uint_incr_is_uint x : is_uint (uint_incr x).
Proof. apply wrap_uint_is_uint. Qed.

Lemma uint_incr_zero : uint_incr 0 = 1.
Proof. reflexivity. Qed.

Lemma uint_incr_below x : is_uint x -> x <> uint_max -> uint_incr x = x + 1.
Proof.
  unfold is_uint, uint_max, uint_incr. intros Hx Hne.
  apply wrap_uint_small. unfold is_uint. lia.
Qed.

Lemma uint_incr_max : uint_incr uint_max = 0.
Proof. reflexivity. Qed.

Lemma uint_incr_wrap x : uint_incr (wrap_uint x) = wrap_uint (x + 1).
Proof.
  unfold uint_incr, wrap_uint.
  rewrite Zplus_mod_idemp_l. reflexivity.
Qed.

(** [n] increments of a [uint] add [n], modulo the size of the type. *)
Lemma iter_uint_incr (n : nat) x :
  is_uint x -> Nat.iter n uint_incr x = wrap_uint (x + Z.of_nat n).
Proof.
  intros Hx. induction n as [|n IH].
  - change (Nat.iter 0 uint_incr x) with x.
    rewrite Z.add_0_r. symmetry. apply wrap_uint_small, Hx.
  - change (Nat.iter (S n) uint_incr x)
      with (uint_incr (Nat.iter n uint_incr x)).
    rewrite IH, uint_incr_wrap. f_equal. lia.
Qed.

Lemma wrap_int64_small z : is_int64 z -> wrap_int64 z = z.
Proof.
  unfold is_int64, wrap_int64. intros H.
  rewrite Z.mod_small by lia. lia.
Qed.

Lemma wrap_int64_is_int64 z : is_int64 (wrap_int64 z).
Proof.
  unfold is_int64, wrap_int64.
  pose proof (Z.mod_pos_bound (z + 2 ^ 63) (2 ^ 64) ltac:(lia)). lia.
Qed.

(** ** Buckets *)

(** The [if]/[else] of the source is one get-or-default-then-increment. *)
Lemma bump_insert (m : gmap string Z) k :
  bump m k = <[k := uint_incr (map_index m k)]> m.
Proof. unfold bump, map_index. destruct (m !! k); reflexivity. Qed.

Lemma bump_lookup_eq (m : gmap string Z) k :
  bump m k !! k = Some (uint_incr (map_index m k)).
Proof. rewrite bump_insert. apply lookup_insert_eq. Qed.

Lemma bump_lookup_ne (m : gmap string Z) k k' :
  k <> k' -> bump m k !! k' = m !! k'.
Proof. intros H. rewrite bump_insert. by apply lookup_insert_ne. Qed.

Lemma bump_absent (m : gmap string Z) k :
  m !! k = None -> bump m k !! k = Some 1.
Proof. intros H. unfold bump. rewrite H. apply lookup_insert_eq. Qed.

Lemma bump_dom (m : gmap string Z) k : dom (bump m k) = {[k]} ∪ dom m.
Proof. rewrite bump_insert. apply dom_insert_L. Qed.

Lemma bump_ok (m : gmap string Z) k :
  map_Forall (fun _ v => is_uint v) m ->
  map_Forall (fun _ v => is_uint v) (bump m k).
Proof.
  intros H. rewrite bump_insert. apply map_Forall_insert_2; [|exact H].
  apply uint_incr_is_uint.
Qed.

Lemma iter_bucket_next (n : nat) :
  Nat.iter (S n) bucket_next None = Some (wrap_uint (Z.of_nat (S n))).
Proof.
  induction n as [|n IH]; [reflexivity|].
  change (Nat.iter (S (S n)) bucket_next None)
    with (bucket_next (Nat.iter (S n) bucket_next None)).
  rewrite IH. unfold bucket_next. cbn [default from_option id].
  rewrite uint_incr_wrap. do 2 f_equal. lia.
Qed.

(** ** handleMessage, case by case *)

Lemma handleMessage_other msg s :
  ~ is_event_type (MessageType msg) -> handleMessage msg s = (s, []).
Proof.
  unfold is_event_type. intros H.
  switch_on msg; try reflexivity; exfalso; apply H; auto 6.
Qed.

Lemma handleMessage_StartedAt msg s :
  StartedAt (handleMessage msg s).1 = StartedAt s.
Proof. switch_on msg; reflexivity. Qed.

Lemma handleMessage_inputData msg s :
  inputData (handleMessage msg s).1 = inputData s.
Proof. switch_on msg; reflexivity. Qed.

Lemma handleMessage_gauges msg s :
  gauges (handleMessage msg s).1 = gauges s.
Proof. switch_on msg; reflexivity. Qed.

(** The counters after a message, and the calls on the registry, depend
    on the counters before it only. *)
Lemma handleMessage_counters msg s s' :
  counters s = counters s' ->
  counters (handleMessage msg s).1 = counters (handleMessage msg s').1 /\
  (handleMessage msg s).2 = (handleMessage msg s').2.
Proof.
  unfold counters. intros H. injection H as H1 H2 H3 H4 H5.
  switch_on msg; cbn; rewrite ?H1, ?H2, ?H3, ?H4, ?H5; auto.
Qed.

Lemma handleMessage_CacheHits msg s :
  CacheHits (info (handleMessage msg s).1) =
  if decide (MessageType msg = StatusTypeCacheHit)
  then uint_incr (CacheHits (info s)) else CacheHits (info s).
Proof.
  switch_on msg; case_decide; try reflexivity; by_types.
Qed.

Lemma handleMessage_CacheMisses msg s :
  CacheMisses (info (handleMessage msg s).1) =
  if decide (MessageType msg = StatusTypeCacheMiss)
  then uint_incr (CacheMisses (info s)) else CacheMisses (info s).
Proof.
  switch_on msg; case_decide; try reflexivity; by_types.
Qed.

(** A lookup in one of the three maps after a message: the message is
    for this bucket, for another bucket of the map, or for no bucket of
    the map. *)
Ltac bucket_cases :=
  let Hd := fresh "Hd" in
  case_decide as Hd; cbn;
  [ destruct Hd as [? <-]; first [ apply bump_lookup_eq | by_types ]
  | first [ reflexivity
          | apply bump_lookup_ne; intros Heq; apply Hd; split;
            [assumption|exact Heq] ] ].

Lemma handleMessage_Errored msg s k :
  Errored (info (handleMessage msg s).1) !! k =
  if decide (MessageType msg = StatusTypeErrored /\ StatusType msg = k)
  then bucket_next (Errored (info s) !! k) else Errored (info s) !! k.
Proof. switch_on msg; bucket_cases. Qed.

Lemma handleMessage_Requested msg s k :
  Requested (info (handleMessage msg s).1) !! k =
  if decide (MessageType msg = StatusTypeRequested /\ StatusType msg = k)
  then bucket_next (Requested (info s) !! k) else Requested (info s) !! k.
Proof. switch_on msg; bucket_cases. Qed.

Lemma handleMessage_APIRequested msg s k :
  APIRequested (info (handleMessage msg s).1) !! k =
  if decide (MessageType msg = StatusTypeAPIRequested /\ StatusType msg = k)
  then bucket_next (APIRequested (info s) !! k)
  else APIRequested (info s) !! k.
Proof. switch_on msg; bucket_cases. Qed.

(** ** Handling a list of messages *)

Lemma handle_all_cons msg rest s :
  handle_all (msg :: rest) s =
  ((handle_all rest (handleMessage msg s).1).1,
   (handleMessage msg s).2 ++ (handle_all rest (handleMessage msg s).1).2).
Proof.
  cbn [handle_all]. destruct (handleMessage msg s) as [s1 i1].
  cbn [fst snd]. destruct (handle_all rest s1) as [s2 i2]. reflexivity.
Qed.

Lemma handle_all_app l1 l2 s :
  handle_all (l1 ++ l2) s =
  ((handle_all l2 (handle_all l1 s).1).1,
   (handle_all l1 s).2 ++ (handle_all l2 (handle_all l1 s).1).2).
Proof.
  revert s. induction l1 as [|m l1 IH]; intros s.
  - cbn [app handle_all fst snd]. by destruct (handle_all l2 s).
  - rewrite <- app_comm_cons, !handle_all_cons, IH. cbn [fst snd].
    by rewrite app_assoc.
Qed.

Lemma handle_all_counters msgs s s' :
  counters s = counters s' ->
  counters (handle_all msgs s).1 = counters (handle_all msgs s').1 /\
  (handle_all msgs s).2 = (handle_all msgs s').2.
Proof.
  revert s s'. induction msgs as [|m rest IH]; intros s s' H.
  - split; [exact H | reflexivity].
  - rewrite !handle_all_cons. cbn [fst snd].
    destruct (handleMessage_counters m s s' H) as [Hc Hi].
    destruct (IH _ _ Hc) as [Hc' Hi']. split; [exact Hc'|].
    by rewrite Hi, Hi'.
Qed.

Lemma handle_all_gauges msgs s : gauges (handle_all msgs s).1 = gauges s.
Proof.
  revert s. induction msgs as [|m rest IH]; intros s; [reflexivity|].
  rewrite handle_all_cons. cbn [fst]. by rewrite IH, handleMessage_gauges.
Qed.

Section Fold.

(** A component of the collector that each message either leaves
    alone or maps through [f], depending on the message only. *)
Context {A : Type} (proj : StatusCollector -> A) (f : A -> A).
Context (P : statusCollectorMessage -> Prop) `{!forall m, Decision (P m)}.
Hypothesis one : forall m s,
  proj (handleMessage m s).1 = if decide (P m) then f (proj s) else proj s.

Lemma handle_all_iter msgs s :
  proj (handle_all msgs s).1 = Nat.iter (length (filter P msgs)) f (proj s).
Proof.
  revert s. induction msgs as [|m rest IH]; intros s; [reflexivity|].
  rewrite handle_all_cons. cbn [fst]. rewrite IH, one, filter_cons.
  destruct (decide (P m)); [|reflexivity].
  cbn [length]. by rewrite Nat.iter_succ_r.
Qed.

End Fold.

Lemma handle_all_CacheHits msgs s :
  CacheHits (info (handle_all msgs s).1) =
  Nat.iter (tally_type StatusTypeCacheHit msgs) uint_incr (CacheHits (info s)).
Proof.
  apply (handle_all_iter (fun s => CacheHits (info s)) uint_incr
           (fun m => MessageType m = StatusTypeCacheHit)).
  apply handleMessage_CacheHits.
Qed.

Lemma handle_all_CacheMisses msgs s :
  CacheMisses (info (handle_all msgs s).1) =
  Nat.iter (tally_type StatusTypeCacheMiss msgs) uint_incr
    (CacheMisses (info s)).
Proof.
  apply (handle_all_iter (fun s => CacheMisses (info s)) uint_incr
           (fun m => MessageType m = StatusTypeCacheMiss)).
  apply handleMessage_CacheMisses.
Qed.

Lemma handle_all_Errored msgs s k :
  Errored (info (handle_all msgs s).1) !! k =
  Nat.iter (tally StatusTypeErrored k msgs) bucket_next
    (Errored (info s) !! k).
Proof.
  apply (handle_all_iter (fun s => Errored (info s) !! k) bucket_next
           (fun m => MessageType m = StatusTypeErrored /\ StatusType m = k)).
  intros m s'. apply handleMessage_Errored.
Qed.

Lemma handle_all_Requested msgs s k :
  Requested (info (handle_all msgs s).1) !! k =
  Nat.iter (tally StatusTypeRequested k msgs) bucket_next
    (Requested (info s) !! k).
Proof.
  apply (handle_all_iter (fun s => Requested (info s) !! k) bucket_next
           (fun m => MessageType m = StatusTypeRequested /\ StatusType m = k)).
  intros m s'. apply handleMessage_Requested.
Qed.

Lemma handle_all_APIRequested msgs s k :
  APIRequested (info (handle_all msgs s).1) !! k =
  Nat.iter (tally StatusTypeAPIRequested k msgs) bucket_next
    (APIRequested (info s) !! k).
Proof.
  apply (handle_all_iter (fun s => APIRequested (info s) !! k) bucket_next
           (fun m => MessageType m = StatusTypeAPIRequested /\
                     StatusType m = k)).
  intros m s'. apply handleMessage_APIRequested.
Qed.

(** A bucket of a map that started empty: absent until the first
    message for it, then the number of messages modulo the size of the
    type. *)
Lemma bucket_from_empty (n : nat) :
  map_index_opt (Nat.iter n bucket_next None) = wrap_uint (Z.of_nat n).
Proof.
  destruct n as [|n]; [reflexivity|]. by rewrite iter_bucket_next.
Qed.

(** ** Schedules *)

Lemma ingest_send c s : ingest c s = chan_send (message_of c) s.
Proof. destruct c; reflexivity. Qed.

Lemma chan_send_Some msg s s' :
  chan_send msg s = Some s' ->
  (length (inputData s) < inputData_cap)%nat /\
  s' = {| info := info s; StartedAt := StartedAt s;
          inputData := inputData s ++ [msg] |}.
Proof.
  unfold chan_send. case_decide; [|discriminate].
  intros [= <-]. auto.
Qed.

Lemma chan_recv_Some s msg s' :
  chan_recv s = Some (msg, s') ->
  inputData s = msg :: inputData s' /\ info s' = info s /\
  StartedAt s' = StartedAt s.
Proof.
  unfold chan_recv. destruct (inputData s) as [|m q] eqn:E; [discriminate|].
  intros [= <- <-]. auto.
Qed.

Lemma Collect_counters r s : counters (Collect r s) = counters s.
Proof. reflexivity. Qed.

(** Readings of the right types give gauges of the right types. *)
Lemma Collect_gauges_typed r s :
  readings_ok r ->
  is_uint (ImgdMem (info (Collect r s))) /\
  is_int64 (Uptime (info (Collect r s))) /\
  is_uint (CacheSize (info (Collect r s))) /\
  is_uint (CacheMem (info (Collect r s))).
Proof.
  intros (H1 & _ & H3 & H4). cbn.
  split; [exact H1|]. split; [apply wrap_int64_is_int64|]. auto.
Qed.

Lemma run_app l1 l2 w :
  run (l1 ++ l2) w = match run l1 w with Some w1 => run l2 w1 | None => None end.
Proof.
  revert w. induction l1 as [|e l1 IH]; intros w; [reflexivity|].
  cbn [app run]. destruct (step e w); [apply IH | reflexivity].
Qed.

(** Whatever the schedule: the messages sent are, in the order of the
    calls, those already handled followed by those still buffered; the
    counters and the registry are those of handling the former one
    after the other; ticks in between change neither. *)
Lemma run_handled sched w0 w :
  run sched w0 = Some w ->
  exists handled,
    inputData (collector w0) ++ (message_of <$> calls_of sched) =
      handled ++ inputData (collector w) /\
    counters (collector w) = counters (handle_all handled (collector w0)).1 /\
    registry w = registry w0 ++ (handle_all handled (collector w0)).2 /\
    StartedAt (collector w) = StartedAt (collector w0).
Proof.
  revert w0. induction sched as [|e rest IH]; intros w0 Hrun.
  - injection Hrun as <-. exists []. cbn. rewrite !app_nil_r. auto.
  - cbn [run] in Hrun. destruct (step e w0) as [w1|] eqn:Hstep; [|discriminate].
    destruct (IH _ Hrun) as (h & Hq & Hc & Hr & Hs). clear IH Hrun.
    destruct e as [c | [r|]]; cbn [step loop_iteration] in Hstep.
    + rewrite ingest_send in Hstep.
      destruct (chan_send _ _) as [s1|] eqn:Hsend; [|discriminate].
      injection Hstep as <-. cbn [collector registry] in *.
      apply chan_send_Some in Hsend as [_ ->]. cbn [inputData StartedAt] in *.
      exists h. cbn [calls_of fmap list_fmap].
      rewrite <- Hq, <- app_assoc. split; [reflexivity|].
      destruct (handle_all_counters h
                  {| info := info (collector w0);
                     StartedAt := StartedAt (collector w0);
                     inputData := inputData (collector w0) ++ [message_of c] |}
                  (collector w0) eq_refl) as [E1 E2].
      rewrite <- E1, <- E2. auto.
    + injection Hstep as <-. cbn [collector registry] in *.
      exists h. cbn [calls_of].
      destruct (handle_all_counters h (Collect r (collector w0))
                  (collector w0) (Collect_counters _ _)) as [E1 E2].
      rewrite <- E1, <- E2. auto.
    + destruct (chan_recv (collector w0)) as [[m s1]|] eqn:Hrecv; [|discriminate].
      apply chan_recv_Some in Hrecv as (Hin & Hinfo & Hst).
      destruct (handleMessage m s1) as [s2 i2] eqn:Hh.
      injection Hstep as <-. cbn [collector registry calls_of] in *.
      assert (Hs2 : s2 = (handleMessage m s1).1) by by rewrite Hh.
      assert (Hi2 : i2 = (handleMessage m s1).2) by by rewrite Hh.
      assert (Hcs : counters s1 = counters (collector w0))
        by (unfold counters; by rewrite Hinfo).
      destruct (handleMessage_counters m _ _ Hcs) as [F1 F2].
      exists (m :: h). rewrite handle_all_cons. cbn [fst snd].
      subst s2 i2. rewrite handleMessage_inputData in Hq.
      rewrite handleMessage_StartedAt in Hs.
      destruct (handle_all_counters h _ _ F1) as [E1 E2].
      rewrite Hin, <- !app_comm_cons, Hq, Hc, Hr, Hs, E1, E2, F2, <- app_assoc.
      auto.
Qed.

(** From a fresh collector to a drained queue: every message sent has
    been handled, in the order of the calls. *)
Lemma run_drained now sched w :
  run sched (boot now) = Some w ->
  inputData (collector w) = [] ->
  counters (collector w) =
    counters (handle_all (message_of <$> calls_of sched)
                (MakeStatsCollector now)).1 /\
  registry w =
    (handle_all (message_of <$> calls_of sched) (MakeStatsCollector now)).2.
Proof.
  intros Hrun Hq. destruct (run_handled _ _ _ Hrun) as (h & Hm & Hc & Hr & _).
  rewrite Hq, app_nil_r in Hm. cbn in Hm. subst h. auto.
Qed.

Lemma calls_of_serve calls : calls_of (serve calls) = calls.
Proof.
  induction calls as [|c rest IH]; [reflexivity|].
  unfold serve in *. cbn [mbind list_bind app calls_of]. by rewrite IH.
Qed.

(** Such a schedule always runs, and leaves the queue empty. *)
Lemma run_serve calls w :
  inputData (collector w) = [] ->
  exists w', run (serve calls) w = Some w' /\ inputData (collector w') = [].
Proof.
  revert w. induction calls as [|c rest IH]; intros w Hq.
  - exists w. auto.
  - unfold serve. cbn [mbind list_bind app run step].
    rewrite ingest_send. unfold chan_send. rewrite Hq.
    cbn [length]. case_decide; [|unfold inputData_cap in *; lia].
    cbn [collector loop_iteration chan_recv inputData app].
    match goal with
    | |- context [handleMessage ?m ?s] =>
        pose proof (handleMessage_inputData m s) as Hi;
        destruct (handleMessage m s) as [s2 i2]
    end.
    apply IH. exact Hi.
Qed.

(** ** Counting calls *)

Lemma count_calls_perm c l l' : l ≡ₚ l' -> count_calls c l = count_calls c l'.
Proof. intros H. unfold count_calls. by rewrite H. Qed.

Lemma count_calls_replicate c n : count_calls c (replicate n c) = n.
Proof.
  unfold count_calls. induction n as [|n IH]; [reflexivity|].
  cbn [replicate]. rewrite filter_cons. case_decide; [|congruence].
  cbn [length]. by rewrite IH.
Qed.

Lemma tally_Errored k : forall calls,
  tally StatusTypeErrored k (message_of <$> calls) =
  count_calls (CallErrored k) calls.
Proof. tally_calls. Qed.

Lemma tally_Requested k : forall calls,
  tally StatusTypeRequested k (message_of <$> calls) =
  count_calls (CallRequested k) calls.
Proof. tally_calls. Qed.

Lemma tally_APIRequested k : forall calls,
  tally StatusTypeAPIRequested k (message_of <$> calls) =
  count_calls (CallAPIRequested k) calls.
Proof. tally_calls. Qed.

Lemma tally_CacheHit : forall calls,
  tally_type StatusTypeCacheHit (message_of <$> calls) =
  count_calls CallHitCache calls.
Proof. tally_calls. Qed.

Lemma tally_CacheMiss : forall calls,
  tally_type StatusTypeCacheMiss (message_of <$> calls) =
  count_calls CallMissCache calls.
Proof. tally_calls. Qed.

(** ** Counters after a drained schedule *)

Lemma drained_Errored now sched w k :
  run sched (boot now) = Some w ->
  inputData (collector w) = [] ->
  map_index (Errored (info (collector w))) k =
  wrap_uint (Z.of_nat (count_calls (CallErrored k) (calls_of sched))).
Proof.
  intros Hrun Hq. destruct (run_drained _ _ _ Hrun Hq) as [Hc _].
  unfold counters in Hc. injection Hc as _ _ -> _ _.
  unfold map_index. rewrite handle_all_Errored, tally_Errored.
  apply bucket_from_empty.
Qed.

Lemma drained_Requested now sched w k :
  run sched (boot now) = Some w ->
  inputData (collector w) = [] ->
  Requested (info (collector w)) !! k =
  Nat.iter (count_calls (CallRequested k) (calls_of sched)) bucket_next None.
Proof.
  intros Hrun Hq. destruct (run_drained _ _ _ Hrun Hq) as [Hc _].
  unfold counters in Hc. injection Hc as _ _ _ -> _.
  by rewrite handle_all_Requested, tally_Requested.
Qed.

Lemma drained_APIRequested now sched w k :
  run sched (boot now) = Some w ->
  inputData (collector w) = [] ->
  APIRequested (info (collector w)) !! k =
  Nat.iter (count_calls (CallAPIRequested k) (calls_of sched)) bucket_next None.
Proof.
  intros Hrun Hq. destruct (run_drained _ _ _ Hrun Hq) as [Hc _].
  unfold counters in Hc. injection Hc as _ _ _ _ ->.
  by rewrite handle_all_APIRequested, tally_APIRequested.
Qed.

Lemma drained_Errored_lookup now sched w k :
  run sched (boot now) = Some w ->
  inputData (collector w) = [] ->
  Errored (info (collector w)) !! k =
  Nat.iter (count_calls (CallErrored k) (calls_of sched)) bucket_next None.
Proof.
  intros Hrun Hq. destruct (run_drained _ _ _ Hrun Hq) as [Hc _].
  unfold counters in Hc. injection Hc as _ _ -> _ _.
  by rewrite handle_all_Errored, tally_Errored.
Qed.

Lemma drained_CacheHits now sched w :
  run sched (boot now) = Some w ->
  inputData (collector w) = [] ->
  CacheHits (info (collector w)) =
  wrap_uint (Z.of_nat (count_calls CallHitCache (calls_of sched))).
Proof.
  intros Hrun Hq. destruct (run_drained _ _ _ Hrun Hq) as [Hc _].
  unfold counters in Hc. injection Hc as -> _ _ _ _.
  rewrite handle_all_CacheHits, tally_CacheHit, iter_uint_incr; [reflexivity|].
  split; [reflexivity | apply uint_modulus_pos].
Qed.

Lemma drained_CacheMisses now sched w :
  run sched (boot now) = Some w ->
  inputData (collector w) = [] ->
  CacheMisses (info (collector w)) =
  wrap_uint (Z.of_nat (count_calls CallMissCache (calls_of sched))).
Proof.
  intros Hrun Hq. destruct (run_drained _ _ _ Hrun Hq) as [Hc _].
  unfold counters in Hc. injection Hc as _ -> _ _ _.
  rewrite handle_all_CacheMisses, tally_CacheMiss, iter_uint_incr;
    [reflexivity|].
  split; [reflexivity | apply uint_modulus_pos].
Qed.

(** * The claims *)

(** C1 (amended).  For every kind [k]: when a fresh collector has run a
    schedule in which [Errored(k)] is called [N] times (other calls and
    ticks anywhere in between) and the queue is drained, [Errored[k]]
    is [N] modulo [2^64]; so it is [N] whenever [N < 2^64]. *)
Theorem C1_errored_counts_calls now k sched w (N : nat) :
  run sched (boot now) = Some w ->
  inputData (collector w) = [] ->
  count_calls (CallErrored k) (calls_of sched) = N ->
  map_index (Errored (info (collector w))) k = wrap_uint (Z.of_nat N) /\
  (Z.of_nat N < uint_modulus ->
   map_index (Errored (info (collector w))) k = Z.of_nat N).
Proof.
  intros Hrun Hq Hcalls.
  assert (H : map_index (Errored (info (collector w))) k
              = wrap_uint (Z.of_nat N)).
  { by rewrite (drained_Errored now sched w k Hrun Hq), Hcalls. }
  split; [exact H|]. intros Hlt. rewrite H.
  apply wrap_uint_small. unfold is_uint. lia.
Qed.

(** Three calls of [Errored("timeout")], each received before the
    next. *)
Lemma C1_errored_counts_calls_witness :
  exists w,
    run (serve (replicate 3 (CallErrored "timeout"))) (boot 1700000000)
      = Some w /\
    map_index (Errored (info (collector w))) "timeout" = 3.
Proof.
  eexists. split; [reflexivity|].
  refine (proj2 (C1_errored_counts_calls 1700000000 "timeout"
                   (serve (replicate 3 (CallErrored "timeout"))) _ 3%nat
                   eq_refl _ _) _).
  - reflexivity.
  - reflexivity.
  - reflexivity.
Defined.

(** C1 as stated fails once the bucket wraps: after [2^64] calls of
    [Errored("e")], all drained, [Errored["e"]] is 0. *)
Lemma C1_counterexample :
  exists w,
    run (serve (replicate (Z.to_nat uint_modulus) (CallErrored "e"))) (boot 0)
      = Some w /\
    inputData (collector w) = [] /\
    calls_of (serve (replicate (Z.to_nat uint_modulus) (CallErrored "e")))
      = replicate (Z.to_nat uint_modulus) (CallErrored "e") /\
    map_index (Errored (info (collector w))) "e" = 0 /\
    map_index (Errored (info (collector w))) "e"
      <> Z.of_nat (Z.to_nat uint_modulus).
Proof.
  destruct (run_serve (replicate (Z.to_nat uint_modulus) (CallErrored "e"))
              (boot 0) eq_refl) as (w & Hrun & Hq).
  exists w. split; [exact Hrun|]. split; [exact Hq|].
  split; [apply calls_of_serve|].
  pose proof (drained_Errored 0 _ w "e" Hrun Hq) as H.
  rewrite calls_of_serve, count_calls_replicate in H.
  rewrite Z2Nat.id in H by (pose proof uint_modulus_pos; lia).
  rewrite Z2Nat.id by (pose proof uint_modulus_pos; lia).
  change (wrap_uint uint_modulus) with 0 in H.
  split; [exact H|]. rewrite H. pose proof uint_modulus_pos. lia.
Qed.

Lemma scenario_A_counts k :
  count_calls CallHitCache scenario_A = 3%nat /\
  count_calls CallMissCache scenario_A = 1%nat /\
  count_calls (CallErrored k) scenario_A = 0%nat /\
  count_calls (CallAPIRequested k) scenario_A = 0%nat /\
  count_calls (CallRequested k) scenario_A
    = (if decide (k = "skin") then 2%nat else 0%nat).
Proof.
  unfold count_calls, scenario_A.
  split; [|split; [|split; [|split]]].
  5: case_decide as Hk; [subst k|].
  all: repeat (rewrite filter_cons; case_decide; try discriminate);
    try reflexivity; congruence.
Qed.

(** C2.  From a fresh collector, any schedule whose calls are those of
    scenario A in some order (ticks anywhere), once drained, exports
    CacheHits 3, CacheMisses 1 and Requested {"skin": 2}. *)
Theorem C2_scenario_A now sched w quote :
  run sched (boot now) = Some w ->
  inputData (collector w) = [] ->
  calls_of sched ≡ₚ scenario_A ->
  member "CacheHits" (snapshot (collector w)) = Some (JNumber 3) /\
  member "CacheMisses" (snapshot (collector w)) = Some (JNumber 1) /\
  member "Requested" (snapshot (collector w))
    = Some (JObject [("skin", JNumber 2)]) /\
  ToJSON quote (collector w) =
    render quote
      (JObject [ ("ImgdMem", JNumber (ImgdMem (info (collector w))));
                 ("Uptime", JNumber (Uptime (info (collector w))));
                 ("Errored", JObject []);
                 ("Requested", JObject [("skin", JNumber 2)]);
                 ("APIRequested", JObject []);
                 ("CacheHits", JNumber 3);
                 ("CacheMisses", JNumber 1);
                 ("CacheSize", JNumber (CacheSize (info (collector w))));
                 ("CacheMem", JNumber (CacheMem (info (collector w)))) ]).
Proof.
  intros Hrun Hq Hperm.
  assert (Hh : CacheHits (info (collector w)) = 3).
  { rewrite (drained_CacheHits now sched w Hrun Hq).
    rewrite (count_calls_perm _ _ _ Hperm).
    by rewrite (proj1 (scenario_A_counts EmptyString)). }
  assert (Hm : CacheMisses (info (collector w)) = 1).
  { rewrite (drained_CacheMisses now sched w Hrun Hq).
    rewrite (count_calls_perm _ _ _ Hperm).
    by rewrite (proj1 (proj2 (scenario_A_counts EmptyString))). }
  assert (He : Errored (info (collector w)) = ∅).
  { apply map_eq. intros k.
    rewrite (drained_Errored_lookup now sched w k Hrun Hq).
    rewrite (count_calls_perm _ _ _ Hperm).
    destruct (scenario_A_counts k) as (_ & _ & -> & _). by rewrite lookup_empty. }
  assert (Ha : APIRequested (info (collector w)) = ∅).
  { apply map_eq. intros k.
    rewrite (drained_APIRequested now sched w k Hrun Hq).
    rewrite (count_calls_perm _ _ _ Hperm).
    destruct (scenario_A_counts k) as (_ & _ & _ & -> & _).
    by rewrite lookup_empty. }
  assert (Hr : Requested (info (collector w)) = {[ "skin" := 2 ]}).
  { apply map_eq. intros k.
    rewrite (drained_Requested now sched w k Hrun Hq).
    rewrite (count_calls_perm _ _ _ Hperm).
    destruct (scenario_A_counts k) as (_ & _ & _ & _ & ->).
    case_decide as Hk.
    - subst k. by rewrite lookup_singleton_eq.
    - rewrite lookup_singleton_ne by congruence. reflexivity. }
  unfold ToJSON, json_Marshal, snapshot, encode_info.
  rewrite Hh, Hm, He, Ha, Hr. repeat split.
Qed.

Lemma scenario_A_schedule_runs :
  run scenario_A_schedule (boot 100) = Some scenario_A_end.
Proof. vm_compute. reflexivity. Qed.

Lemma C2_scenario_A_witness :
  member "CacheHits" (snapshot (collector scenario_A_end))
    = Some (JNumber 3) /\
  member "CacheMisses" (snapshot (collector scenario_A_end))
    = Some (JNumber 1) /\
  member "Requested" (snapshot (collector scenario_A_end))
    = Some (JObject [("skin", JNumber 2)]).
Proof.
  refine (let H := C2_scenario_A 100 scenario_A_schedule scenario_A_end id
                     scenario_A_schedule_runs eq_refl _ in
          conj (proj1 H) (conj (proj1 (proj2 H)) (proj1 (proj2 (proj2 H))))).
  apply (bool_decide_unpack _). vm_compute. exact I.
Defined.

(** C3.  Handling a message of one of the five event types makes
    exactly one call on the registry: the cache vector with "hit" or
    "miss", or the error, request or API-request vector with the
    message's string.  It adds one, modulo [2^64], to the matching
    counter; for a map that is the bucket of the message's string, read
    as 0 when absent and so holding 1 afterwards.  Every other counter,
    every other bucket, the gauges, [StartedAt] and the queue are left
    as they were. *)
Theorem C3_one_increment_per_event msg s :
  is_event_type (MessageType msg) ->
  length (handleMessage msg s).2 = 1%nat /\
  gauges (handleMessage msg s).1 = gauges s /\
  StartedAt (handleMessage msg s).1 = StartedAt s /\
  inputData (handleMessage msg s).1 = inputData s /\
  (MessageType msg = StatusTypeCacheHit ->
     (handleMessage msg s).2 = [WithLabelValues_Inc cacheCounter "hit"] /\
     CacheHits (info (handleMessage msg s).1)
       = (CacheHits (info s) + 1) mod 2 ^ 64 /\
     CacheMisses (info (handleMessage msg s).1) = CacheMisses (info s) /\
     Errored (info (handleMessage msg s).1) = Errored (info s) /\
     Requested (info (handleMessage msg s).1) = Requested (info s) /\
     APIRequested (info (handleMessage msg s).1) = APIRequested (info s)) /\
  (MessageType msg = StatusTypeCacheMiss ->
     (handleMessage msg s).2 = [WithLabelValues_Inc cacheCounter "miss"] /\
     CacheMisses (info (handleMessage msg s).1)
       = (CacheMisses (info s) + 1) mod 2 ^ 64 /\
     CacheHits (info (handleMessage msg s).1) = CacheHits (info s) /\
     Errored (info (handleMessage msg s).1) = Errored (info s) /\
     Requested (info (handleMessage msg s).1) = Requested (info s) /\
     APIRequested (info (handleMessage msg s).1) = APIRequested (info s)) /\
  (MessageType msg = StatusTypeErrored ->
     (handleMessage msg s).2
       = [WithLabelValues_Inc errorCounter (StatusType msg)] /\
     Errored (info (handleMessage msg s).1) !! StatusType msg
       = Some ((default 0 (Errored (info s) !! StatusType msg) + 1)
               mod 2 ^ 64) /\
     (Errored (info s) !! StatusType msg = None ->
      Errored (info (handleMessage msg s).1) !! StatusType msg = Some 1) /\
     (forall k, k <> StatusType msg ->
        Errored (info (handleMessage msg s).1) !! k = Errored (info s) !! k) /\
     CacheHits (info (handleMessage msg s).1) = CacheHits (info s) /\
     CacheMisses (info (handleMessage msg s).1) = CacheMisses (info s) /\
     Requested (info (handleMessage msg s).1) = Requested (info s) /\
     APIRequested (info (handleMessage msg s).1) = APIRequested (info s)) /\
  (MessageType msg = StatusTypeRequested ->
     (handleMessage msg s).2
       = [WithLabelValues_Inc requestCounter (StatusType msg)] /\
     Requested (info (handleMessage msg s).1) !! StatusType msg
       = Some ((default 0 (Requested (info s) !! StatusType msg) + 1)
               mod 2 ^ 64) /\
     (Requested (info s) !! StatusType msg = None ->
      Requested (info (handleMessage msg s).1) !! StatusType msg = Some 1) /\
     (forall k, k <> StatusType msg ->
        Requested (info (handleMessage msg s).1) !! k
        = Requested (info s) !! k) /\
     CacheHits (info (handleMessage msg s).1) = CacheHits (info s) /\
     CacheMisses (info (handleMessage msg s).1) = CacheMisses (info s) /\
     Errored (info (handleMessage msg s).1) = Errored (info s) /\
     APIRequested (info (handleMessage msg s).1) = APIRequested (info s)) /\
  (MessageType msg = StatusTypeAPIRequested ->
     (handleMessage msg s).2
       = [WithLabelValues_Inc apiCounter (StatusType msg)] /\
     APIRequested (info (handleMessage msg s).1) !! StatusType msg
       = Some ((default 0 (APIRequested (info s) !! StatusType msg) + 1)
               mod 2 ^ 64) /\
     (APIRequested (info s) !! StatusType msg = None ->
      APIRequested (info (handleMessage msg s).1) !! StatusType msg
      = Some 1) /\
     (forall k, k <> StatusType msg ->
        APIRequested (info (handleMessage msg s).1) !! k
        = APIRequested (info s) !! k) /\
     CacheHits (info (handleMessage msg s).1) = CacheHits (info s) /\
     CacheMisses (info (handleMessage msg s).1) = CacheMisses (info s) /\
     Errored (info (handleMessage msg s).1) = Errored (info s) /\
     Requested (info (handleMessage msg s).1) = Requested (info s)).
Proof.
  intros Hev.
  split.
  { unfold is_event_type in Hev. switch_on msg; try reflexivity.
    exfalso. tauto. }
  clear Hev. split; [apply handleMessage_gauges|].
  split; [apply handleMessage_StartedAt|].
  split; [apply handleMessage_inputData|].
  switch_on msg.
  all: split; [|split; [|split; [|split]]]; intros Ht;
    try (exfalso; by_types).
  all: cbn [fst snd info with_info set_CacheHits set_CacheMisses set_Errored
    set_Requested set_APIRequested CacheHits CacheMisses Errored Requested
    APIRequested].
  all: repeat apply conj; try reflexivity.
  all: first [ apply bump_lookup_eq
             | apply bump_absent
             | intros k Hk; apply bump_lookup_ne; congruence ].
Qed.

(** The first [Errored("timeout")] on a fresh collector. *)
Lemma C3_one_increment_per_event_witness :
  (handleMessage {| MessageType := 4; StatusType := "timeout" |}
     (MakeStatsCollector 0)).2 = [WithLabelValues_Inc errorCounter "timeout"] /\
  Errored (info (handleMessage {| MessageType := 4; StatusType := "timeout" |}
                   (MakeStatsCollector 0)).1) !! "timeout" = Some 1.
Proof.
  destruct (C3_one_increment_per_event
              {| MessageType := 4; StatusType := "timeout" |}
              (MakeStatsCollector 0))
    as (_ & _ & _ & _ & _ & _ & He & _).
  - unfold is_event_type. cbn. auto 6.
  - destruct (He eq_refl) as (Hreg & _ & Habs & _).
    split; [exact Hreg | exact (Habs eq_refl)].
Defined.

(** C10.  A message whose type is none of the five constants changes
    nothing in the collector and makes no call on the registry. *)
Theorem C10_unknown_type_ignored msg s :
  ~ is_event_type (MessageType msg) -> handleMessage msg s = (s, []).
Proof. apply handleMessage_other. Qed.

Lemma C10_unknown_type_ignored_witness :
  handleMessage {| MessageType := 5; StatusType := "skin" |}
    (MakeStatsCollector 0) = (MakeStatsCollector 0, []).
Proof.
  apply C10_unknown_type_ignored. cbn. unfold is_event_type. by_types.
Defined.

(** C4.  On a tick the loop runs [Collect], which replaces the four
    gauges by the readings of that instant, whatever they held before:
    [ImgdMem] by [memstats.Alloc], [Uptime] by the [int64] difference
    of the clock and [StartedAt], [CacheSize] and [CacheMem] by the
    cache's answers.  It touches nothing else.  When the tick comes [T]
    seconds after construction, [Uptime] is [T], and stays so under
    any messages handled until the next tick. *)
Theorem C4_Collect_resamples_gauges r s :
  (forall w, loop_iteration (TickerC r) w
             = Some {| collector := Collect r (collector w);
                       registry := registry w |}) /\
  gauges (Collect r s) =
    (memstats_Alloc r, wrap_int64 (time_Now_Unix r - StartedAt s),
     cache_size r, cache_memory r) /\
  (forall s', StartedAt s' = StartedAt s ->
              gauges (Collect r s') = gauges (Collect r s)) /\
  counters (Collect r s) = counters s /\
  StartedAt (Collect r s) = StartedAt s /\
  inputData (Collect r s) = inputData s /\
  (forall T, is_int64 T -> time_Now_Unix r = StartedAt s + T ->
     Uptime (info (Collect r s)) = T /\
     forall msgs, Uptime (info (handle_all msgs (Collect r s)).1) = T).
Proof.
  split; [reflexivity|]. split; [reflexivity|].
  split; [intros s' Hs; unfold gauges, Collect; cbn; by rewrite Hs|].
  split; [reflexivity|]. split; [reflexivity|]. split; [reflexivity|].
  intros T HT Hnow.
  assert (HU : Uptime (info (Collect r s)) = T).
  { cbn. rewrite Hnow. replace (StartedAt s + T - StartedAt s) with T by lia.
    by apply wrap_int64_small. }
  split; [exact HU|]. intros msgs.
  pose proof (handle_all_gauges msgs (Collect r s)) as Hg.
  unfold gauges in Hg. injection Hg as _ Hg _ _. by rewrite Hg.
Qed.

(** A tick 5 seconds after construction. *)
Lemma C4_Collect_resamples_gauges_witness :
  Uptime (info (Collect {| memstats_Alloc := 4096;
                           time_Now_Unix := 1700000005;
                           cache_size := 7; cache_memory := 900 |}
                  (MakeStatsCollector 1700000000))) = 5.
Proof.
  refine (proj1 (proj2 (proj2 (proj2 (proj2 (proj2 (proj2
    (C4_Collect_resamples_gauges
       {| memstats_Alloc := 4096; time_Now_Unix := 1700000005;
          cache_size := 7; cache_memory := 900 |}
       (MakeStatsCollector 1700000000))))))) 5 _ _)).
  - unfold is_int64. lia.
  - reflexivity.
Defined.

(** ** Counters never go down, short of wrapping *)

Lemma no_decrease_refl x : no_decrease x x.
Proof. left. lia. Qed.

Lemma buckets_no_decrease_refl m : buckets_no_decrease m m.
Proof. intros k v H. exists v. split; [exact H | apply no_decrease_refl]. Qed.

Lemma counters_no_decrease_same s s' :
  counters s = counters s' -> counters_no_decrease s s'.
Proof.
  unfold counters. intros [= H1 H2 H3 H4 H5]. unfold counters_no_decrease.
  rewrite H1, H2, H3, H4, H5.
  auto using no_decrease_refl, buckets_no_decrease_refl.
Qed.

Lemma uint_incr_no_decrease x : is_uint x -> no_decrease x (uint_incr x).
Proof.
  intros Hx. destruct (decide (x = uint_max)) as [->|Hne].
  - right. split; reflexivity.
  - left. rewrite uint_incr_below by assumption. lia.
Qed.

Lemma bump_no_decrease (m : gmap string Z) k :
  map_Forall (fun _ v => is_uint v) m -> buckets_no_decrease m (bump m k).
Proof.
  intros Hm k' v Hv. destruct (decide (k = k')) as [<-|Hne].
  - rewrite bump_lookup_eq. eexists. split; [reflexivity|].
    unfold map_index. rewrite Hv. cbn [default from_option id].
    apply uint_incr_no_decrease. exact (Hm _ _ Hv).
  - rewrite bump_lookup_ne by assumption. exists v.
    split; [exact Hv | apply no_decrease_refl].
Qed.

Lemma handleMessage_no_decrease msg s :
  counters_ok s -> counters_no_decrease s (handleMessage msg s).1.
Proof.
  intros (H1 & H2 & H3 & H4 & H5). unfold counters_no_decrease.
  switch_on msg; cbn [fst info with_info set_CacheHits set_CacheMisses
    set_Errored set_Requested set_APIRequested CacheHits CacheMisses Errored
    Requested APIRequested];
  auto 10 using no_decrease_refl, buckets_no_decrease_refl,
    uint_incr_no_decrease, bump_no_decrease.
Qed.

Lemma handleMessage_counters_ok msg s :
  counters_ok s -> counters_ok (handleMessage msg s).1.
Proof.
  intros (H1 & H2 & H3 & H4 & H5). unfold counters_ok.
  switch_on msg; cbn [fst info with_info set_CacheHits set_CacheMisses
    set_Errored set_Requested set_APIRequested CacheHits CacheMisses Errored
    Requested APIRequested];
  auto 10 using uint_incr_is_uint, bump_ok.
Qed.

Lemma counters_ok_same s s' :
  counters s = counters s' -> counters_ok s -> counters_ok s'.
Proof.
  unfold counters, counters_ok. intros [= H1 H2 H3 H4 H5].
  by rewrite H1, H2, H3, H4, H5.
Qed.

(** What one event does to the collector: the counters are kept, or a
    message is handled on a collector with the same counters. *)
Lemma step_cases e w w' :
  step e w = Some w' ->
  counters (collector w') = counters (collector w) \/
  exists msg s, counters s = counters (collector w) /\
                collector w' = (handleMessage msg s).1.
Proof.
  destruct e as [c | [r|]]; cbn [step loop_iteration].
  - rewrite ingest_send. destruct (chan_send _ _) as [s1|] eqn:Hs; [|discriminate].
    intros [= <-]. apply chan_send_Some in Hs as [_ ->]. by left.
  - intros [= <-]. by left.
  - destruct (chan_recv _) as [[m s1]|] eqn:Hr; [|discriminate].
    apply chan_recv_Some in Hr as (_ & Hi & _).
    destruct (handleMessage m s1) as [s2 i2] eqn:Hh. intros [= <-].
    right. exists m, s1. split.
    + unfold counters. by rewrite Hi.
    + cbn [collector]. by rewrite Hh.
Qed.

Lemma step_counters_ok e w w' :
  step e w = Some w' -> counters_ok (collector w) -> counters_ok (collector w').
Proof.
  intros Hstep Hok. destruct (step_cases _ _ _ Hstep) as [H|(m & s & Hc & ->)].
  - by apply (counters_ok_same (collector w)).
  - apply handleMessage_counters_ok. by apply (counters_ok_same (collector w)).
Qed.

Lemma run_counters_ok sched w w' :
  run sched w = Some w' -> counters_ok (collector w) -> counters_ok (collector w').
Proof.
  revert w. induction sched as [|e rest IH]; intros w Hrun Hok.
  - by injection Hrun as <-.
  - cbn [run] in Hrun. destruct (step e w) as [w1|] eqn:Hs; [|discriminate].
    eauto using step_counters_ok.
Qed.

Lemma boot_counters_ok now : counters_ok (collector (boot now)).
Proof.
  pose proof uint_modulus_pos as Hpos.
  assert (H0 : is_uint 0) by (unfold is_uint; lia).
  unfold counters_ok. cbn [boot collector MakeStatsCollector info CacheHits
    CacheMisses Errored Requested APIRequested].
  split; [exact H0|]. split; [exact H0|].
  split; [|split]; apply map_Forall_empty.
Qed.

Lemma reachable_counters_ok w : reachable w -> counters_ok (collector w).
Proof.
  intros (now & sched & Hrun).
  eapply run_counters_ok; [exact Hrun | apply boot_counters_ok].
Qed.

Lemma counters_no_decrease_proper s1 s2 s' :
  counters s1 = counters s2 ->
  counters_no_decrease s1 s' -> counters_no_decrease s2 s'.
Proof.
  unfold counters, counters_no_decrease. intros [= H1 H2 H3 H4 H5].
  by rewrite H1, H2, H3, H4, H5.
Qed.

(** C5 (amended).  In every reachable state, no step of the process
    (a call, a handled message, a tick) removes a key of the three maps
    or lowers a counter, except that incrementing a counter that holds
    [2^64-1] wraps it to 0. *)
Theorem C5_counters_no_decrease_until_wrap e w w' :
  reachable w ->
  step e w = Some w' ->
  counters_no_decrease (collector w) (collector w').
Proof.
  intros Hreach Hstep. apply reachable_counters_ok in Hreach.
  destruct (step_cases _ _ _ Hstep) as [H|(m & s & Hc & ->)].
  - by apply counters_no_decrease_same.
  - apply (counters_no_decrease_proper s); [exact Hc|].
    apply handleMessage_no_decrease. by apply (counters_ok_same (collector w)).
Qed.

Lemma C5_counters_no_decrease_until_wrap_witness :
  counters_no_decrease (collector one_hit_buffered) (collector one_hit_handled).
Proof.
  apply (C5_counters_no_decrease_until_wrap (Loop InputData)).
  - exists 0, [Produce CallHitCache]. vm_compute. reflexivity.
  - vm_compute. reflexivity.
Defined.

(** The state reached by [n] cache hits, each received before the
    next, followed by one more call of [HitCache]. *)
Lemma hits_then_one_buffered (n : nat) :
  exists w,
    run (serve (replicate n CallHitCache) ++ [Produce CallHitCache]) (boot 0)
      = Some w /\
    CacheHits (info (collector w)) = wrap_uint (Z.of_nat n) /\
    inputData (collector w) = [message_of CallHitCache].
Proof.
  destruct (run_serve (replicate n CallHitCache) (boot 0) eq_refl)
    as (w1 & Hrun & Hq).
  pose proof (drained_CacheHits 0 _ w1 Hrun Hq) as Hh.
  rewrite calls_of_serve, count_calls_replicate in Hh.
  exists {| collector :=
              {| info := info (collector w1);
                 StartedAt := StartedAt (collector w1);
                 inputData := [message_of CallHitCache] |};
            registry := registry w1 |}.
  split; [|split; [exact Hh | reflexivity]].
  rewrite run_app, Hrun. cbn [run step ingest].
  unfold Ingest.HitCache, chan_send. rewrite Hq. reflexivity.
Qed.

(** C5 as stated fails at the wrap: after [2^64-1] cache hits the
    counter holds the largest [uint], and handling one more hit takes
    it down to 0. *)
Lemma C5_counterexample :
  exists w w',
    reachable w /\
    step (Loop InputData) w = Some w' /\
    CacheHits (info (collector w)) = uint_max /\
    CacheHits (info (collector w')) = 0 /\
    CacheHits (info (collector w')) < CacheHits (info (collector w)).
Proof.
  destruct (hits_then_one_buffered (Z.to_nat uint_max)) as (w & Hrun & Hh & Hq).
  rewrite Z2Nat.id in Hh by (unfold uint_max; pose proof uint_modulus_pos; lia).
  change (wrap_uint uint_max) with uint_max in Hh.
  exists w.
  exists {| collector :=
              {| info := set_CacheHits 0 (info (collector w));
                 StartedAt := StartedAt (collector w); inputData := [] |};
            registry := registry w
                        ++ [WithLabelValues_Inc cacheCounter "hit"] |}.
  split; [by eexists 0, _|]. split.
  - cbn [step loop_iteration]. unfold chan_recv. rewrite Hq.
    unfold handleMessage. cbn [message_of MessageType Z.eqb StatusTypeCacheHit
      info with_info StartedAt inputData]. rewrite Hh. reflexivity.
  - cbn [collector info CacheHits set_CacheHits]. rewrite Hh.
    split; [reflexivity|]. split; [reflexivity|].
    unfold uint_max. rewrite uint_modulus_eq. lia.
Qed.

(** ** The queue *)

Lemma step_within_cap e w w' :
  step e w = Some w' ->
  (length (inputData (collector w)) <= inputData_cap)%nat ->
  (length (inputData (collector w')) <= inputData_cap)%nat.
Proof.
  destruct e as [c | [r|]]; cbn [step loop_iteration].
  - rewrite ingest_send. destruct (chan_send _ _) as [s1|] eqn:Hs; [|discriminate].
    intros [= <-] _. apply chan_send_Some in Hs as [Hlt ->].
    cbn [collector inputData]. rewrite length_app. cbn [length]. lia.
  - intros [= <-]. auto.
  - destruct (chan_recv _) as [[m s1]|] eqn:Hr; [|discriminate].
    apply chan_recv_Some in Hr as (Hq & _ & _).
    pose proof (handleMessage_inputData m s1) as Hi.
    destruct (handleMessage m s1) as [s2 i2]. intros [= <-].
    cbn [collector fst] in *. rewrite Hq, Hi. cbn [length]. lia.
Qed.

Lemma run_within_cap sched w w' :
  run sched w = Some w' ->
  (length (inputData (collector w)) <= inputData_cap)%nat ->
  (length (inputData (collector w')) <= inputData_cap)%nat.
Proof.
  revert w. induction sched as [|e rest IH]; intros w Hrun Hle.
  - by injection Hrun as <-.
  - cbn [run] in Hrun. destruct (step e w) as [w1|] eqn:Hs; [|discriminate].
    eauto using step_within_cap.
Qed.

(** C7.  The queue has capacity 5.  Each of the five ingestion calls,
    on a queue holding fewer than 5 messages, returns having appended
    exactly one message, of its own type and string; on a queue holding
    5 it does not return (it neither drops the message nor reports an
    error), and it can return as soon as the loop has received one
    message.  In every run from a fresh collector the queue never holds
    more than 5, and the messages of the calls that returned are, in
    order, those handled so far followed by those still queued: none is
    lost, none is handled twice. *)
Theorem C7_ingest_enqueues_or_blocks c s :
  inputData_cap = 5%nat /\
  ((length (inputData s) < 5)%nat ->
     ingest c s = Some {| info := info s; StartedAt := StartedAt s;
                          inputData := inputData s ++ [message_of c] |}) /\
  ((5 <= length (inputData s))%nat -> ingest c s = None) /\
  (forall m s1, (length (inputData s) <= 5)%nat ->
                chan_recv s = Some (m, s1) -> is_Some (ingest c s1)) /\
  (forall now sched w,
     run sched (boot now) = Some w ->
     (length (inputData (collector w)) <= 5)%nat /\
     exists handled,
       message_of <$> calls_of sched = handled ++ inputData (collector w) /\
       counters (collector w)
         = counters (handle_all handled (MakeStatsCollector now)).1 /\
       registry w = (handle_all handled (MakeStatsCollector now)).2).
Proof.
  split; [reflexivity|]. rewrite ingest_send. unfold chan_send, inputData_cap.
  split; [intros H; by case_decide|].
  split; [intros H; case_decide; [lia|reflexivity]|].
  split.
  - intros m s1 Hle Hr. apply chan_recv_Some in Hr as (Hq & _ & _).
    rewrite ingest_send. unfold chan_send, inputData_cap.
    rewrite Hq in Hle. cbn [length] in Hle. case_decide; [eauto|lia].
  - intros now sched w Hrun. split.
    + apply (run_within_cap _ _ _ Hrun). cbn. lia.
    + destruct (run_handled _ _ _ Hrun) as (h & Hm & Hc & Hr & _).
      exists h. cbn in Hm, Hr. auto.
Qed.

Lemma C7_ingest_enqueues_or_blocks_witness :
  run (Produce <$> five_calls) (boot 0)
    = Some {| collector := full_queue; registry := [] |} /\
  ingest CallHitCache full_queue = None /\
  chan_recv full_queue = Some (message_of CallHitCache, full_queue_less_one) /\
  is_Some (ingest CallHitCache full_queue_less_one).
Proof.
  split; [reflexivity|]. split; [|split; [reflexivity|]].
  - refine (proj1 (proj2 (proj2
              (C7_ingest_enqueues_or_blocks CallHitCache full_queue))) _).
    cbn. lia.
  - refine (proj1 (proj2 (proj2 (proj2
              (C7_ingest_enqueues_or_blocks CallHitCache full_queue))))
              (message_of CallHitCache) full_queue_less_one _ eq_refl).
    cbn. lia.
Defined.

(** ** The encoding *)

Global Instance key_le_total : Total key_le.
Proof. intros a b. unfold key_le. apply String.leb_total. Qed.

Lemma encode_map_object m : is_object_of (encode_map m) m.
Proof.
  exists (merge_sort key_le (map_to_list m)). split; [reflexivity|].
  split; [apply merge_sort_Permutation | apply Sorted_merge_sort, _].
Qed.

Lemma member_object j (m : gmap string Z) k :
  is_object_of j m -> member k j = JNumber <$> m !! k.
Proof.
  intros (l & -> & Hperm & _). cbn [member].
  assert (Hin : forall k' v, (k', v) ∈ l <-> m !! k' = Some v).
  { intros k' v. rewrite Hperm. apply elem_of_map_to_list. }
  destruct (List.find _ _) as [[k' j']|] eqn:Hf.
  - apply List.find_some in Hf as [Hx Hk]. cbn in Hk.
    apply String.eqb_eq in Hk. subst k'.
    apply list_elem_of_In, list_elem_of_fmap in Hx as ([k' v] & [= -> ->] & Hl).
    apply Hin in Hl. by rewrite Hl.
  - destruct (m !! k) as [v|] eqn:Hm; [|reflexivity]. exfalso.
    apply Hin in Hm.
    pose proof (List.find_none _ _ Hf (k, JNumber v)) as Hnone.
    cbn in Hnone. rewrite String.eqb_refl in Hnone.
    assert (false = true) as Habs; [|discriminate Habs].
    symmetry. apply Hnone. apply list_elem_of_In, list_elem_of_fmap.
    by exists (k, v).
Qed.

(** C8.  Whatever the collector holds, [ToJSON] writes out one object
    whose members are named ImgdMem, Uptime, Errored, Requested,
    APIRequested, CacheHits, CacheMisses, CacheSize and CacheMem, and
    no other; the six scalar members are the numbers the fields hold,
    the three map members are objects with one number per key of the
    map. *)
Theorem C8_snapshot_fields quote s :
  ToJSON quote s = render quote (snapshot s) /\
  member_names (snapshot s) = field_names /\
  member "ImgdMem" (snapshot s) = Some (JNumber (ImgdMem (info s))) /\
  member "Uptime" (snapshot s) = Some (JNumber (Uptime (info s))) /\
  member "CacheHits" (snapshot s) = Some (JNumber (CacheHits (info s))) /\
  member "CacheMisses" (snapshot s) = Some (JNumber (CacheMisses (info s))) /\
  member "CacheSize" (snapshot s) = Some (JNumber (CacheSize (info s))) /\
  member "CacheMem" (snapshot s) = Some (JNumber (CacheMem (info s))) /\
  (exists j, member "Errored" (snapshot s) = Some j /\
             is_object_of j (Errored (info s)) /\
             forall k, member k j = JNumber <$> Errored (info s) !! k) /\
  (exists j, member "Requested" (snapshot s) = Some j /\
             is_object_of j (Requested (info s)) /\
             forall k, member k j = JNumber <$> Requested (info s) !! k) /\
  (exists j, member "APIRequested" (snapshot s) = Some j /\
             is_object_of j (APIRequested (info s)) /\
             forall k, member k j = JNumber <$> APIRequested (info s) !! k).
Proof.
  do 8 (split; [reflexivity|]).
  split; [|split]; eexists; (split; [reflexivity|]);
    (split; [apply encode_map_object
            | intros k; apply member_object, encode_map_object]).
Qed.

(** ** A snapshot taken while the goroutine runs *)

(** With nothing in between, the call is [ToJSON] as written. *)
Lemma ToJSON_during_nil quote w :
  ToJSON_during quote [] w = Some (ToJSON quote (collector w)).
Proof. reflexivity. Qed.

(** C6 fails on the code.  A [ToJSON] that starts on a fresh collector
    while a cache hit and then a request for "skin" are handled writes
    out CacheHits 0 next to Requested {"skin": 1}; the collector went
    through CacheHits 0 with no request, CacheHits 1 with no request
    and CacheHits 1 with one request, and never held that
    combination. *)
Theorem C6_torn_snapshot :
  snapshot_during hit_then_skin (boot 0) = Some torn_document /\
  member "CacheHits" torn_document = Some (JNumber 0) /\
  member "Requested" torn_document = Some (JObject [("skin", JNumber 1)]) /\
  length (trace hit_then_skin (boot 0)) = 5%nat /\
  Forall (fun w => snapshot (collector w) <> torn_document)
    (trace hit_then_skin (boot 0)).
Proof.
  split; [vm_compute; reflexivity|]. split; [reflexivity|].
  split; [reflexivity|]. split; [vm_compute; reflexivity|].
  cbn [trace hit_then_skin].
  repeat first
    [ apply Forall_nil_2
    | apply Forall_cons_2;
      [ intros H;
        first [ apply (f_equal (member "CacheHits")) in H;
                vm_compute in H; discriminate H
              | apply (f_equal (member "Requested")) in H;
                vm_compute in H; discriminate H ] | ] ].
Qed.

(** * Further properties of the collector *)

(** ** Every counter counts its own calls *)

Lemma drained_counter_of now sched w c :
  run sched (boot now) = Some w ->
  inputData (collector w) = [] ->
  counter_of c (collector w) = wrap_uint (Z.of_nat (count_calls c (calls_of sched))).
Proof.
  intros Hrun Hq. destruct c as [e|r|r| |]; cbn [counter_of].
  - by apply (drained_Errored now).
  - unfold map_index. rewrite (drained_Requested now sched w r Hrun Hq).
    apply bucket_from_empty.
  - unfold map_index. rewrite (drained_APIRequested now sched w r Hrun Hq).
    apply bucket_from_empty.
  - by apply (drained_CacheHits now).
  - by apply (drained_CacheMisses now).
Qed.

(** X1.  After any schedule from a fresh collector that ends with the
    queue drained, each of the five counters (CacheHits, CacheMisses,
    and every bucket of the three maps, read as [m[k]]) holds the
    number of calls of its own method and string, modulo [2^64],
    whatever other calls and ticks were interleaved. *)
Theorem X1_counters_count_own_calls now sched w :
  run sched (boot now) = Some w ->
  inputData (collector w) = [] ->
  forall c, counter_of c (collector w)
            = wrap_uint (Z.of_nat (count_calls c (calls_of sched))).
Proof. intros Hrun Hq c. by apply (drained_counter_of now). Qed.

Lemma X1_counters_count_own_calls_witness :
  counter_of (CallRequested "skin") (collector scenario_A_end) = 2 /\
  counter_of CallHitCache (collector scenario_A_end) = 3 /\
  counter_of (CallErrored "skin") (collector scenario_A_end) = 0.
Proof.
  pose proof (X1_counters_count_own_calls 100 scenario_A_schedule
                scenario_A_end scenario_A_schedule_runs eq_refl) as H.
  split; [exact (H (CallRequested "skin"))|].
  split; [exact (H CallHitCache) | exact (H (CallErrored "skin"))].
Defined.

(** ** The order of the messages does not matter *)

Lemma map_index_insert_ne (m : gmap string Z) k k' v :
  k <> k' -> map_index (<[k := v]> m) k' = map_index m k'.
Proof. intros H. unfold map_index. by rewrite lookup_insert_ne. Qed.

Lemma bump_comm (m : gmap string Z) k1 k2 :
  bump (bump m k1) k2 = bump (bump m k2) k1.
Proof.
  destruct (decide (k1 = k2)) as [->|Hne]; [reflexivity|].
  rewrite !bump_insert.
  rewrite (map_index_insert_ne m k1 k2) by assumption.
  rewrite (map_index_insert_ne m k2 k1) by congruence.
  by apply insert_insert_ne.
Qed.

(** Two messages handled in either order leave the same collector. *)
Lemma handleMessage_swap m1 m2 s :
  (handleMessage m2 (handleMessage m1 s).1).1
  = (handleMessage m1 (handleMessage m2 s).1).1.
Proof.
  switch_on m1; switch_on m2; cbn; try reflexivity;
    by rewrite bump_comm.
Qed.

(** The calls a message makes on the registry do not depend on the
    collector. *)
Lemma handleMessage_registry_any m s s' :
  (handleMessage m s).2 = (handleMessage m s').2.
Proof. switch_on m; reflexivity. Qed.

Lemma handle_all_registry msgs s :
  (handle_all msgs s).2
  = msgs ≫= fun m => (handleMessage m (MakeStatsCollector 0)).2.
Proof.
  revert s. induction msgs as [|m rest IH]; intros s; [reflexivity|].
  rewrite handle_all_cons. cbn [snd mbind list_bind].
  rewrite IH. f_equal. apply handleMessage_registry_any.
Qed.

Lemma handle_all_perm msgs msgs' s :
  msgs ≡ₚ msgs' -> (handle_all msgs s).1 = (handle_all msgs' s).1.
Proof.
  intros Hp. revert s.
  induction Hp as [|m l l' _ IH|m1 m2 l|l1 l2 l3 _ IH1 _ IH2]; intros s.
  - reflexivity.
  - rewrite !handle_all_cons. cbn [fst]. apply IH.
  - rewrite !handle_all_cons. cbn [fst]. by rewrite handleMessage_swap.
  - by rewrite IH1.
Qed.

(** X2.  From any collector, handling the same messages in another
    order ends in the same collector (every counter, gauge and the
    queue), and makes the same calls on the registry up to their
    order. *)
Theorem X2_handling_order_irrelevant msgs msgs' s :
  msgs ≡ₚ msgs' ->
  (handle_all msgs s).1 = (handle_all msgs' s).1 /\
  (handle_all msgs s).2 ≡ₚ (handle_all msgs' s).2.
Proof.
  intros Hp. split; [by apply handle_all_perm|].
  rewrite !handle_all_registry. by rewrite Hp.
Qed.

Lemma X2_handling_order_irrelevant_witness :
  (handle_all [message_of (CallErrored "timeout"); message_of CallHitCache;
               message_of (CallErrored "dns")] (MakeStatsCollector 0)).1
  = (handle_all [message_of (CallErrored "dns");
                 message_of (CallErrored "timeout"); message_of CallHitCache]
       (MakeStatsCollector 0)).1.
Proof.
  refine (proj1 (X2_handling_order_irrelevant _ _ (MakeStatsCollector 0) _)).
  symmetry. apply (Permutation_cons_append [_; _]).
Defined.

(** ** The registry and the counters *)

Lemma handleMessage_increment_of c s :
  (handleMessage (message_of c) s).2 = [increment_of c].
Proof. destruct c; reflexivity. Qed.

Lemma handle_all_increments calls s :
  (handle_all (message_of <$> calls) s).2 = increment_of <$> calls.
Proof.
  revert s. induction calls as [|c rest IH]; intros s; [reflexivity|].
  cbn [fmap list_fmap]. rewrite handle_all_cons. cbn [snd].
  by rewrite handleMessage_increment_of, IH.
Qed.

(** The calls of a schedule that ran split into those whose message
    has been handled and those whose message is still queued. *)
Lemma run_split now sched w :
  run sched (boot now) = Some w ->
  exists handled queued,
    calls_of sched = handled ++ queued /\
    inputData (collector w) = message_of <$> queued /\
    counters (collector w)
      = counters (handle_all (message_of <$> handled)
                    (MakeStatsCollector now)).1 /\
    registry w = increment_of <$> handled.
Proof.
  intros Hrun. destruct (run_handled _ _ _ Hrun) as (h & Hm & Hc & Hr & _).
  cbn [boot collector registry MakeStatsCollector inputData app] in Hm, Hr.
  apply fmap_app_inv in Hm as (l1 & l2 & -> & Hq & Hcalls).
  exists l1, l2. split; [exact Hcalls|]. split; [exact Hq|].
  split; [exact Hc|]. rewrite Hr. cbn [app]. apply handle_all_increments.
Qed.

(** X3.  In every run from a fresh collector the registry has received
    exactly one call per handled message, in the order in which the
    ingestion calls returned: the log is the image of the calls whose
    message is no longer queued.  Once the queue is drained it is the
    image of all the calls. *)
Theorem X3_registry_follows_calls now sched w :
  run sched (boot now) = Some w ->
  (exists handled queued,
     calls_of sched = handled ++ queued /\
     inputData (collector w) = message_of <$> queued /\
     registry w = increment_of <$> handled) /\
  (inputData (collector w) = [] ->
   registry w = increment_of <$> calls_of sched).
Proof.
  intros Hrun. destruct (run_split _ _ _ Hrun) as (h & q & Hc & Hq & _ & Hr).
  split; [by exists h, q|].
  intros Hnil. rewrite Hnil in Hq. symmetry in Hq.
  apply fmap_nil_inv in Hq. subst q. by rewrite Hc, app_nil_r.
Qed.

Lemma X3_registry_follows_calls_witness :
  registry scenario_A_end = increment_of <$> calls_of scenario_A_schedule.
Proof.
  exact (proj2 (X3_registry_follows_calls 100 scenario_A_schedule
                  scenario_A_end scenario_A_schedule_runs) eq_refl).
Defined.

Lemma increment_of_inj c c' : increment_of c = increment_of c' -> c = c'.
Proof. destruct c, c'; cbn; intros H; by inversion H. Qed.

Lemma count_incs_increment_of c calls :
  count_incs (increment_of c) (increment_of <$> calls) = count_calls c calls.
Proof.
  unfold count_incs, count_calls. induction calls as [|c' rest IH];
    [reflexivity|].
  cbn [fmap list_fmap]. rewrite !filter_cons.
  destruct (decide (c' = c)) as [->|Hne].
  - rewrite decide_True by reflexivity. cbn [length]. by rewrite IH.
  - rewrite decide_False; [exact IH|].
    intros H. apply Hne. by apply increment_of_inj.
Qed.

Lemma handled_counter_of c handled s :
  counters s = counters (handle_all (message_of <$> handled)
                           (MakeStatsCollector 0)).1 ->
  counter_of c s = wrap_uint (Z.of_nat (count_calls c handled)).
Proof.
  unfold counters. intros [= H1 H2 H3 H4 H5].
  destruct c as [e|r|r| |]; cbn [counter_of]; unfold map_index.
  - rewrite H3, handle_all_Errored, tally_Errored. apply bucket_from_empty.
  - rewrite H4, handle_all_Requested, tally_Requested. apply bucket_from_empty.
  - rewrite H5, handle_all_APIRequested, tally_APIRequested.
    apply bucket_from_empty.
  - rewrite H1, handle_all_CacheHits, tally_CacheHit, iter_uint_incr;
      [reflexivity|]. split; [reflexivity | apply uint_modulus_pos].
  - rewrite H2, handle_all_CacheMisses, tally_CacheMiss, iter_uint_incr;
      [reflexivity|]. split; [reflexivity | apply uint_modulus_pos].
Qed.

(** X4.  In every reachable state, drained or not, each counter of the
    collector agrees with the registry: it holds, modulo [2^64], the
    number of calls the registry has received on the matching vector
    with the matching label. *)
Theorem X4_counters_agree_with_registry w c :
  reachable w ->
  counter_of c (collector w)
  = wrap_uint (Z.of_nat (count_incs (increment_of c) (registry w))).
Proof.
  intros (now & sched & Hrun).
  destruct (run_split _ _ _ Hrun) as (h & q & _ & _ & Hc & Hr).
  rewrite Hr, count_incs_increment_of.
  apply handled_counter_of. rewrite Hc.
  apply (handle_all_counters (message_of <$> h)
           (MakeStatsCollector now) (MakeStatsCollector 0) eq_refl).
Qed.

Lemma X4_counters_agree_with_registry_witness :
  counter_of (CallRequested "skin") (collector scenario_A_end) = 2.
Proof.
  refine (X4_counters_agree_with_registry scenario_A_end
            (CallRequested "skin") _).
  exists 100, scenario_A_schedule. apply scenario_A_schedule_runs.
Defined.

(** ** Gauges between ticks *)

Lemma step_gauges e w w' :
  step e w = Some w' ->
  StartedAt (collector w') = StartedAt (collector w) /\
  gauges (collector w') =
    match e with
    | Loop (TickerC r) =>
        (memstats_Alloc r,
         wrap_int64 (time_Now_Unix r - StartedAt (collector w)),
         cache_size r, cache_memory r)
    | _ => gauges (collector w)
    end.
Proof.
  destruct e as [c | [r|]]; cbn [step loop_iteration].
  - rewrite ingest_send. destruct (chan_send _ _) as [s1|] eqn:Hs; [|discriminate].
    intros [= <-]. apply chan_send_Some in Hs as [_ ->]. by split.
  - intros [= <-]. by split.
  - destruct (chan_recv _) as [[m s1]|] eqn:Hr; [|discriminate].
    apply chan_recv_Some in Hr as (_ & Hi & Hst).
    pose proof (handleMessage_gauges m s1) as Hg.
    pose proof (handleMessage_StartedAt m s1) as Hs.
    destruct (handleMessage m s1) as [s2 i2]. intros [= <-].
    cbn [collector fst] in *. split; [congruence|].
    rewrite Hg. unfold gauges. by rewrite Hi.
Qed.

Lemma run_gauges sched w w' :
  run sched w = Some w' ->
  StartedAt (collector w') = StartedAt (collector w) /\
  gauges (collector w') =
    match last_tick sched with
    | Some r =>
        (memstats_Alloc r,
         wrap_int64 (time_Now_Unix r - StartedAt (collector w)),
         cache_size r, cache_memory r)
    | None => gauges (collector w)
    end.
Proof.
  revert w. induction sched as [|e rest IH]; intros w Hrun.
  - injection Hrun as <-. by split.
  - cbn [run] in Hrun. destruct (step e w) as [w1|] eqn:Hs; [|discriminate].
    destruct (IH _ Hrun) as [Hst Hg].
    destruct (step_gauges _ _ _ Hs) as [Hst1 Hg1].
    split; [congruence|]. rewrite Hg. cbn [last_tick].
    destruct (last_tick rest) as [r|]; [by rewrite Hst1|].
    rewrite Hg1. by destruct e as [c | [r|]].
Qed.

(** X5.  After any schedule from a collector constructed at time [now],
    [StartedAt] is still [now], and the four gauges are those computed
    from the readings of the last tick of the schedule; with no tick
    yet they are all zero, whatever calls and messages went by. *)
Theorem X5_gauges_are_last_tick now sched w :
  run sched (boot now) = Some w ->
  StartedAt (collector w) = now /\
  gauges (collector w) =
    match last_tick sched with
    | Some r => (memstats_Alloc r, wrap_int64 (time_Now_Unix r - now),
                 cache_size r, cache_memory r)
    | None => (0, 0, 0, 0)
    end.
Proof. intros Hrun. exact (run_gauges _ _ _ Hrun). Qed.

Lemma X5_gauges_are_last_tick_witness :
  gauges (collector scenario_A_end) = (4096, 5, 7, 900).
Proof.
  exact (proj2 (X5_gauges_are_last_tick 100 scenario_A_schedule
                  scenario_A_end scenario_A_schedule_runs)).
Defined.

(** ** How far producers can run ahead *)

Lemma run_produce_only calls w :
  is_Some (run (Produce <$> calls) w) <->
  (length (inputData (collector w)) + length calls <= inputData_cap)%nat \/
  calls = [].
Proof.
  revert w. induction calls as [|c rest IH]; intros w.
  - cbn. split; [auto | eauto].
  - cbn [fmap list_fmap run step]. rewrite ingest_send. unfold chan_send.
    case_decide as Hlt.
    + rewrite IH. cbn [collector inputData length]. rewrite length_app.
      cbn [length]. split.
      * intros [H| ->]; left; cbn [length]; lia.
      * intros [H|H]; [left; lia | discriminate].
    + split; [by intros [? ?]|]. cbn [length].
      intros [H|H]; [lia | discriminate].
Qed.

(** X6.  A burst of ingestion calls on a fresh collector, with no
    iteration of the loop in between, all return exactly when there
    are at most 5 of them: the sixth call of a burst is the first that
    cannot return. *)
Theorem X6_burst_returns_iff_at_most_five now calls :
  is_Some (run (Produce <$> calls) (boot now)) <-> (length calls <= 5)%nat.
Proof.
  rewrite run_produce_only. cbn [boot collector MakeStatsCollector inputData
    length]. unfold inputData_cap. split.
  - intros [H| ->]; cbn [length]; lia.
  - intros H. left. lia.
Qed.

Lemma run_queue_balance sched w w' :
  run sched w = Some w' ->
  (length (inputData (collector w)) + length (calls_of sched)
   = receives sched + length (inputData (collector w')))%nat.
Proof.
  revert w. induction sched as [|e rest IH]; intros w Hrun.
  - injection Hrun as <-. cbn. lia.
  - cbn [run] in Hrun. destruct (step e w) as [w1|] eqn:Hs; [|discriminate].
    specialize (IH _ Hrun). clear Hrun.
    destruct e as [c | [r|]]; cbn [step loop_iteration calls_of receives] in *.
    + rewrite ingest_send in Hs.
      destruct (chan_send _ _) as [s1|] eqn:Hsend; [|discriminate].
      injection Hs as <-. apply chan_send_Some in Hsend as [_ ->].
      cbn [collector inputData length] in IH. rewrite length_app in IH.
      cbn [length] in *. lia.
    + injection Hs as <-. exact IH.
    + destruct (chan_recv _) as [[m s1]|] eqn:Hr; [|discriminate].
      apply chan_recv_Some in Hr as (Hq & _ & _).
      pose proof (handleMessage_inputData m s1) as Hi.
      destruct (handleMessage m s1) as [s2 i2]. injection Hs as <-.
      cbn [collector fst] in *. rewrite Hq. rewrite Hi in IH.
      cbn [length]. lia.
Qed.

(** X7.  In every run from a fresh collector, the number of ingestion
    calls that have returned is the number of messages the loop has
    received plus the number still queued; so the producers are never
    more than 5 calls ahead of the loop, and the loop has never
    received more messages than calls have returned. *)
Theorem X7_producers_at_most_five_ahead now sched w :
  run sched (boot now) = Some w ->
  (length (calls_of sched)
   = receives sched + length (inputData (collector w)))%nat /\
  (receives sched <= length (calls_of sched) <= receives sched + 5)%nat.
Proof.
  intros Hrun. pose proof (run_queue_balance _ _ _ Hrun) as Hb.
  assert (Hcap : (length (inputData (collector w)) <= inputData_cap)%nat).
  { apply (run_within_cap _ _ _ Hrun). cbn. lia. }
  cbn [boot collector MakeStatsCollector inputData length] in Hb.
  unfold inputData_cap in Hcap. lia.
Qed.

Lemma X7_producers_at_most_five_ahead_witness :
  (length (calls_of scenario_A_schedule)
   = receives scenario_A_schedule
     + length (inputData (collector scenario_A_end)))%nat.
Proof.
  exact (proj1 (X7_producers_at_most_five_ahead 100 scenario_A_schedule
                  scenario_A_end scenario_A_schedule_runs)).
Defined.

(** X8.  In every reachable state in which an ingestion call cannot
    return, the queue holds exactly 5 messages, the [inputData] case of
    the loop is ready, and once that iteration has run the call can
    return: a blocked producer never waits for more than one receive. *)
Theorem X8_blocked_call_released_by_one_receive w c :
  reachable w ->
  ingest c (collector w) = None ->
  length (inputData (collector w)) = 5%nat /\
  exists w', loop_iteration InputData w = Some w' /\
             is_Some (ingest c (collector w')).
Proof.
  intros (now & sched & Hrun) Hblock.
  assert (Hcap : (length (inputData (collector w)) <= inputData_cap)%nat).
  { apply (run_within_cap _ _ _ Hrun). cbn. lia. }
  rewrite ingest_send in Hblock. unfold chan_send in Hblock.
  case_decide as Hlt; [discriminate|]. unfold inputData_cap in *.
  split; [lia|].
  unfold loop_iteration, chan_recv.
  destruct (inputData (collector w)) as [|m q] eqn:Hq; [cbn in Hlt; lia|].
  match goal with
  | |- context [handleMessage ?m ?s] =>
      pose proof (handleMessage_inputData m s) as Hi;
      destruct (handleMessage m s) as [s2 i2]
  end.
  eexists. split; [reflexivity|]. cbn [collector fst inputData] in *.
  rewrite ingest_send. unfold chan_send, inputData_cap. rewrite Hi.
  cbn [length] in Hcap. case_decide; [eauto | lia].
Qed.

Lemma X8_blocked_call_released_by_one_receive_witness :
  exists w',
    loop_iteration InputData {| collector := full_queue; registry := [] |}
      = Some w' /\
    is_Some (ingest CallMissCache (collector w')).
Proof.
  refine (proj2 (X8_blocked_call_released_by_one_receive
                   {| collector := full_queue; registry := [] |}
                   CallMissCache _ _)).
  - exists 0, (Produce <$> five_calls). reflexivity.
  - reflexivity.
Defined.

Lemma run_receive_only (n : nat) w :
  is_Some (run (replicate n (Loop InputData)) w) <->
  (n <= length (inputData (collector w)))%nat.
Proof.
  revert w. induction n as [|n IH]; intros w.
  - cbn. split; [lia | eauto].
  - cbn [replicate run step loop_iteration]. unfold chan_recv.
    destruct (inputData (collector w)) as [|m q] eqn:Hq.
    + cbn [length]. split; [by intros [? ?] | lia].
    + match goal with
      | |- context [handleMessage ?m ?s] =>
          pose proof (handleMessage_inputData m s) as Hi;
          destruct (handleMessage m s) as [s2 i2]
      end.
      rewrite IH. cbn [collector fst inputData length] in *. rewrite Hi. lia.
Qed.

(** X9.  The [inputData] case of the loop handles one queued message
    per iteration and is not ready on an empty queue: [n] such
    iterations in a row can run exactly when at least [n] messages are
    queued. *)
Theorem X9_receives_need_queued_messages (n : nat) w :
  is_Some (run (replicate n (Loop InputData)) w) <->
  (n <= length (inputData (collector w)))%nat.
Proof. apply run_receive_only. Qed.

(** ** Which buckets exist *)

Lemma iter_bucket_is_Some (n : nat) :
  is_Some (Nat.iter n bucket_next None) <-> n <> 0%nat.
Proof.
  destruct n as [|n]; cbn.
  - split; [by intros [? ?] | congruence].
  - split; [congruence | eauto].
Qed.

Lemma count_calls_nonzero c calls : count_calls c calls <> 0%nat <-> c ∈ calls.
Proof.
  unfold count_calls. split.
  - intros H. destruct (filter _ calls) as [|c' l] eqn:Hf; [by destruct H|].
    assert (Hin : c' ∈ filter (fun c' => c' = c) calls)
      by (rewrite Hf; apply list_elem_of_here).
    apply list_elem_of_filter in Hin as [-> Hin]. exact Hin.
  - intros Hin Hz. apply length_zero_iff_nil in Hz.
    assert (Hf : c ∈ filter (fun c' => c' = c) calls)
      by (apply list_elem_of_filter; auto).
    rewrite Hz in Hf. by apply not_elem_of_nil in Hf.
Qed.

(** X10.  After a drained schedule from a fresh collector, a key is
    present in one of the three maps exactly when the matching method
    was called with that string at least once; this holds for every
    string, the empty one included, and the key stays present even if
    its count has wrapped to 0. *)
Theorem X10_bucket_exists_iff_called now sched w k :
  run sched (boot now) = Some w ->
  inputData (collector w) = [] ->
  (is_Some (Errored (info (collector w)) !! k)
     <-> CallErrored k ∈ calls_of sched) /\
  (is_Some (Requested (info (collector w)) !! k)
     <-> CallRequested k ∈ calls_of sched) /\
  (is_Some (APIRequested (info (collector w)) !! k)
     <-> CallAPIRequested k ∈ calls_of sched).
Proof.
  intros Hrun Hq.
  rewrite (drained_Errored_lookup now sched w k Hrun Hq).
  rewrite (drained_Requested now sched w k Hrun Hq).
  rewrite (drained_APIRequested now sched w k Hrun Hq).
  rewrite !iter_bucket_is_Some, !count_calls_nonzero. auto.
Qed.

Lemma X10_bucket_exists_iff_called_witness :
  is_Some (Requested (info (collector scenario_A_end)) !! "skin") /\
  ~ is_Some (Errored (info (collector scenario_A_end)) !! "skin").
Proof.
  destruct (X10_bucket_exists_iff_called 100 scenario_A_schedule
              scenario_A_end "skin" scenario_A_schedule_runs eq_refl)
    as (He & Hr & _).
  split.
  - apply Hr. apply (bool_decide_unpack _). vm_compute. exact I.
  - intros H. apply He in H. revert H.
    apply (bool_decide_unpack _). vm_compute. exact I.
Defined.

(** ** What the queue holds *)

(** X11.  In every reachable state each queued message was sent by one
    of the five methods: its type is one of the five constants, so the
    fall-through of the [switch] is never taken, and the iteration that
    receives it adds exactly one call to the registry. *)
Theorem X11_queue_holds_events_only w :
  reachable w ->
  Forall (fun m => is_event_type (MessageType m) /\
                   exists c, m = message_of c) (inputData (collector w)) /\
  forall w', loop_iteration InputData w = Some w' ->
             exists i, registry w' = registry w ++ [i].
Proof.
  intros (now & sched & Hrun).
  destruct (run_split _ _ _ Hrun) as (h & q & _ & Hq & _ & _).
  assert (HF : Forall (fun m => is_event_type (MessageType m) /\
                                exists c, m = message_of c)
                 (inputData (collector w))).
  { rewrite Hq. apply Forall_fmap, Forall_forall. intros c _. split.
    - unfold is_event_type. destruct c; cbn; auto 6.
    - by exists c. }
  split; [exact HF|]. intros w'. cbn [loop_iteration]. unfold chan_recv.
  destruct (inputData (collector w)) as [|m rest]; [discriminate|].
  apply Forall_cons_1 in HF as [[_ [c ->]] _].
  match goal with
  | |- context [handleMessage ?m ?s] =>
      pose proof (handleMessage_increment_of c s) as Hi;
      destruct (handleMessage m s) as [s2 i2]
  end.
  intros [= <-]. cbn [registry snd] in *. subst i2. eauto.
Qed.

Lemma X11_queue_holds_events_only_witness :
  Forall (fun m => is_event_type (MessageType m) /\
                   exists c, m = message_of c) (inputData full_queue).
Proof.
  refine (proj1 (X11_queue_holds_events_only
                   {| collector := full_queue; registry := [] |} _)).
  exists 0, (Produce <$> five_calls). reflexivity.
Defined.

(** ** Ticks and messages *)

(** X12.  A tick and a message commute: running [Collect] before or
    after [handleMessage] gives the same collector and the same call on
    the registry, so which case of the [select] is taken first does not
    matter. *)
Theorem X12_tick_and_message_commute r msg s :
  Collect r (handleMessage msg s).1 = (handleMessage msg (Collect r s)).1 /\
  (handleMessage msg s).2 = (handleMessage msg (Collect r s)).2.
Proof. switch_on msg; split; reflexivity. Qed.

(** ** Types *)

Lemma last_tick_in sched r : last_tick sched = Some r -> r ∈ ticks_of sched.
Proof.
  induction sched as [|e rest IH]; [discriminate|]. cbn [last_tick].
  destruct (last_tick rest) as [r'|].
  - intros [= ->]. specialize (IH eq_refl).
    destruct e as [c | [r''|]]; cbn [ticks_of]; try exact IH.
    by apply list_elem_of_further.
  - destruct e as [c | [r''|]]; try discriminate.
    intros [= ->]. cbn [ticks_of]. apply list_elem_of_here.
Qed.

(** X13.  When every tick reads values of the right Go types, every
    field of [info] holds a value of its own type in every state of
    the run: the counters are within [uint], [ImgdMem], [CacheSize]
    and [CacheMem] within their unsigned types and [Uptime] within
    [int64]. *)
Theorem X13_fields_stay_in_range now sched w :
  run sched (boot now) = Some w ->
  Forall readings_ok (ticks_of sched) ->
  info_typed (collector w).
Proof.
  intros Hrun Hticks. split.
  - eapply run_counters_ok; [exact Hrun | apply boot_counters_ok].
  - destruct (run_gauges _ _ _ Hrun) as [_ Hg]. unfold gauges in Hg.
    destruct (last_tick sched) as [r|] eqn:Hl.
    + injection Hg as -> -> -> ->.
      apply last_tick_in in Hl.
      rewrite Forall_forall in Hticks. destruct (Hticks _ Hl) as (H1 & _ & H3 & H4).
      split; [exact H1|]. split; [apply wrap_int64_is_int64|]. auto.
    + cbn in Hg. injection Hg as -> -> -> ->.
      pose proof uint_modulus_pos.
      unfold is_uint, is_int64. lia.
Qed.

Lemma X13_fields_stay_in_range_witness : info_typed (collector scenario_A_end).
Proof.
  apply (X13_fields_stay_in_range 100 scenario_A_schedule scenario_A_end
           scenario_A_schedule_runs).
  cbn [scenario_A_schedule ticks_of]. apply Forall_cons_2; [|apply Forall_nil_2].
  unfold readings_ok, is_uint, is_int64. cbn. rewrite uint_modulus_eq. lia.
Defined.

(** ** The buckets of a map add up *)

Lemma sum_counts_empty : sum_counts ∅ = 0.
Proof. apply map_fold_empty. Qed.

Lemma sum_counts_insert_fresh (m : gmap string Z) k v :
  m !! k = None -> sum_counts (<[k := v]> m) = v + sum_counts m.
Proof.
  intros H. unfold sum_counts.
  apply (map_fold_insert_L (fun _ v acc => v + acc)); [|exact H].
  intros. lia.
Qed.

Lemma sum_counts_insert (m : gmap string Z) k v :
  sum_counts (<[k := v]> m) = sum_counts m - map_index m k + v.
Proof.
  unfold map_index. destruct (m !! k) as [x|] eqn:Hk; cbn [default from_option id].
  - rewrite <- (insert_delete_id m k x Hk) at 2.
    rewrite <- (insert_delete_eq m k v).
    rewrite !sum_counts_insert_fresh by apply lookup_delete_eq. lia.
  - rewrite sum_counts_insert_fresh by assumption. lia.
Qed.

Lemma sum_counts_nonneg (m : gmap string Z) :
  map_Forall (fun _ v => 0 <= v) m -> 0 <= sum_counts m.
Proof.
  induction m as [|k v m Hk _ IH] using map_first_key_ind.
  - intros _. by rewrite sum_counts_empty.
  - intros H. apply map_Forall_insert in H as [Hv Hm]; [|exact Hk].
    rewrite sum_counts_insert_fresh by assumption. specialize (IH Hm). lia.
Qed.

Lemma bucket_le_sum (m : gmap string Z) k :
  map_Forall (fun _ v => 0 <= v) m -> 0 <= map_index m k <= sum_counts m.
Proof.
  intros H. unfold map_index. destruct (m !! k) as [x|] eqn:Hk;
    cbn [default from_option id].
  - rewrite <- (insert_delete_id m k x Hk).
    rewrite sum_counts_insert_fresh by apply lookup_delete_eq.
    assert (0 <= sum_counts (delete k m)).
    { apply sum_counts_nonneg. intros k' v' Hl.
      apply lookup_delete_Some in Hl as [_ Hl]. exact (H _ _ Hl). }
    pose proof (H _ _ Hk). cbn in *. lia.
  - split; [lia | by apply sum_counts_nonneg].
Qed.

Lemma bump_sum (m : gmap string Z) k :
  map_Forall (fun _ v => 0 <= v) m ->
  sum_counts m < uint_max ->
  sum_counts (bump m k) = sum_counts m + 1 /\
  map_Forall (fun _ v => 0 <= v) (bump m k).
Proof.
  intros Hm Hlt. pose proof (bucket_le_sum m k Hm) as Hb.
  assert (Hi : uint_incr (map_index m k) = map_index m k + 1).
  { apply uint_incr_below; [|lia]. unfold is_uint, uint_max in *. lia. }
  rewrite bump_insert, Hi. split.
  - rewrite sum_counts_insert. lia.
  - apply map_Forall_insert_2; [lia | exact Hm].
Qed.

Section Sum.

(** One of the three maps, and the message type that feeds it. *)
Context (proj : StatusCollector -> gmap string Z) (t : Z).
Hypothesis one : forall m s,
  proj (handleMessage m s).1 =
  if decide (MessageType m = t) then bump (proj s) (StatusType m) else proj s.

Lemma handle_all_sum msgs s :
  map_Forall (fun _ v => 0 <= v) (proj s) ->
  sum_counts (proj s) + Z.of_nat (tally_type t msgs) < uint_modulus ->
  sum_counts (proj (handle_all msgs s).1)
  = sum_counts (proj s) + Z.of_nat (tally_type t msgs).
Proof.
  revert s. unfold tally_type.
  induction msgs as [|m rest IH]; intros s Hm Hlt.
  - cbn. lia.
  - rewrite handle_all_cons. cbn [fst]. rewrite filter_cons in *.
    destruct (decide (MessageType m = t)) as [Ht|Ht].
    + cbn [length] in *.
      destruct (bump_sum (proj s) (StatusType m) Hm) as [Hs Hf];
        [unfold uint_max; lia|].
      rewrite IH; rewrite one, decide_True by assumption;
        [rewrite Hs; lia | exact Hf | rewrite Hs; lia].
    + rewrite IH; rewrite one, decide_False by assumption;
        [reflexivity | exact Hm | exact Hlt].
Qed.

End Sum.

Lemma tally_type_le t msgs : (tally_type t msgs <= length msgs)%nat.
Proof. unfold tally_type. apply length_filter. Qed.

Lemma handleMessage_Requested_map m s :
  Requested (info (handleMessage m s).1) =
  if decide (MessageType m = StatusTypeRequested)
  then bump (Requested (info s)) (StatusType m) else Requested (info s).
Proof. switch_on m; case_decide; try reflexivity; by_types. Qed.

Lemma handleMessage_Errored_map m s :
  Errored (info (handleMessage m s).1) =
  if decide (MessageType m = StatusTypeErrored)
  then bump (Errored (info s)) (StatusType m) else Errored (info s).
Proof. switch_on m; case_decide; try reflexivity; by_types. Qed.

Lemma handleMessage_APIRequested_map m s :
  APIRequested (info (handleMessage m s).1) =
  if decide (MessageType m = StatusTypeAPIRequested)
  then bump (APIRequested (info s)) (StatusType m) else APIRequested (info s).
Proof. switch_on m; case_decide; try reflexivity; by_types. Qed.

(** X15.  After a drained schedule from a fresh collector, the buckets
    of each map add up to the number of messages of its type that were
    sent, whatever their strings, as long as fewer than [2^64] calls
    were made: no message is lost and none is counted twice. *)
Theorem X15_buckets_add_up_to_calls now sched w :
  run sched (boot now) = Some w ->
  inputData (collector w) = [] ->
  Z.of_nat (length (calls_of sched)) < uint_modulus ->
  sum_counts (Errored (info (collector w)))
    = Z.of_nat (tally_type StatusTypeErrored (message_of <$> calls_of sched)) /\
  sum_counts (Requested (info (collector w)))
    = Z.of_nat (tally_type StatusTypeRequested
                  (message_of <$> calls_of sched)) /\
  sum_counts (APIRequested (info (collector w)))
    = Z.of_nat (tally_type StatusTypeAPIRequested
                  (message_of <$> calls_of sched)).
Proof.
  intros Hrun Hq Hlen. destruct (run_drained _ _ _ Hrun Hq) as [Hc _].
  unfold counters in Hc. injection Hc as _ _ -> -> ->.
  assert (Hlt : forall t,
    Z.of_nat (tally_type t (message_of <$> calls_of sched)) < uint_modulus).
  { intros t. pose proof (tally_type_le t (message_of <$> calls_of sched)) as H.
    rewrite length_fmap in H. lia. }
  split; [|split].
  - rewrite (handle_all_sum (fun s => Errored (info s)) StatusTypeErrored
               handleMessage_Errored_map).
    + cbn. by rewrite sum_counts_empty.
    + cbn. apply map_Forall_empty.
    + cbn. rewrite sum_counts_empty. apply Hlt.
  - rewrite (handle_all_sum (fun s => Requested (info s)) StatusTypeRequested
               handleMessage_Requested_map).
    + cbn. by rewrite sum_counts_empty.
    + cbn. apply map_Forall_empty.
    + cbn. rewrite sum_counts_empty. apply Hlt.
  - rewrite (handle_all_sum (fun s => APIRequested (info s))
               StatusTypeAPIRequested handleMessage_APIRequested_map).
    + cbn. by rewrite sum_counts_empty.
    + cbn. apply map_Forall_empty.
    + cbn. rewrite sum_counts_empty. apply Hlt.
Qed.

Lemma X15_buckets_add_up_to_calls_witness :
  sum_counts (Requested (info (collector scenario_A_end))) = 2.
Proof.
  refine (proj1 (proj2 (X15_buckets_add_up_to_calls 100 scenario_A_schedule
                          scenario_A_end scenario_A_schedule_runs eq_refl _))).
  cbn. rewrite uint_modulus_eq. lia.
Defined.
